(** * mailpen: the template manager, its naming rules and helpers

    A shallow embedding of the mailpen package: the template manager
    ([manager.go]), the template helper functions ([funcs.go]), the theme
    accessor, the template data maps ([template_data.go]), the message
    builder ([message.go]), the composite processor and the constructor of
    [mailpen.go], together with the parts of Go's [strings], [path],
    [io/fs] and [html/template] packages the manager calls.

    Conventions.
    - Go strings are [string]; Go's [int] is a [Z] inside the 64-bit range.
    - A file system ([fs.FS]) is a finite tree of directories and files.
    - A template set ([*template.Template]) is a finite map from template
      names to parsed trees; parsing and execution themselves are left to
      an [Engine] instance.
    - Methods of [*Manager] take the manager and return the manager they
      leave behind together with their Go result.

    The definitions come first, the properties after them. *)

From Stdlib Require Import ZArith Ascii String List Bool Lia.
From stdpp Require Import base option list gmap strings.

Local Open Scope string_scope.
Local Open Scope list_scope.

(** ** Results and errors *)

Inductive result (E A : Type) : Type :=
| Ok (a : A)
| Err (e : E).
Arguments Ok {E A} a.
Arguments Err {E A} e.

Definition is_ok {E A} (r : result E A) : bool :=
  match r with Ok _ => true | Err _ => false end.

(** The value of a result, [d] for an error. *)
Definition get_ok {E A} (r : result E A) (d : A) : A :=
  match r with Ok a => a | Err _ => d end.

(** Errors of [io/fs]. *)
Inductive fs_error : Type :=
| ErrNotExist
| ErrInvalid
| ErrIsDir
| ErrIO.

(** Errors the manager returns.  One constructor for every [fmt.Errorf]
    of [manager.go]; [%w] keeps the wrapped error. *)
Inductive error : Type :=
| FsError (e : fs_error)
| LibError (msg : string)
| WalkError (filePath : string) (inner : error)
| ReadFailed (filePath : string) (inner : error)
| ParseFailed (filePath : string) (inner : error)
| LoadLayoutsFailed (source : string) (inner : error)
| LoadComponentsFailed (source : string) (inner : error)
| LoadPartialsFailed (source : string) (inner : error)
| TemplateNotFound (filename : string)
| RenderTextFailed (inner : error)
| RenderHTMLFailed (inner : error)
| ProcessHTMLFailed (inner : error)
| NoTemplatesFound (name : string)
| AddBuiltinFailed (inner : error)
| AddSourceFailed (source : string) (inner : error).

(** ** Package [strings] *)

Module Strings.

(** [s[:n]] and [s[n:]] for [n <= len(s)]. *)
Definition take (n : nat) (s : string) : string := String.substring 0 n s.
Definition drop (n : nat) (s : string) : string :=
  String.substring n (String.length s - n) s.

Definition HasPrefix (s prefix : string) : bool :=
  (String.length prefix <=? String.length s)%nat
  && String.eqb (take (String.length prefix) s) prefix.

Definition HasSuffix (s suffix : string) : bool :=
  (String.length suffix <=? String.length s)%nat
  && String.eqb (drop (String.length s - String.length suffix) s) suffix.

Definition TrimPrefix (s prefix : string) : string :=
  if HasPrefix s prefix then drop (String.length prefix) s else s.

Definition TrimSuffix (s suffix : string) : string :=
  if HasSuffix s suffix
  then take (String.length s - String.length suffix) s
  else s.

(** [strings.Split(s, sep)] for a separator of one byte. *)
Fixpoint Split (s : string) (sep : ascii) : list string :=
  match s with
  | EmptyString => [EmptyString]
  | String c rest =>
      if Ascii.eqb c sep then EmptyString :: Split rest sep
      else match Split rest sep with
           | h :: t => String c h :: t
           | [] => [String c EmptyString]
           end
  end.

(** [strings.Join(elems, sep)]. *)
Fixpoint Join (elems : list string) (sep : string) : string :=
  match elems with
  | [] => ""
  | [e] => e
  | e :: rest => e +:+ sep +:+ Join rest sep
  end.

(** [len(bytes.TrimSpace(s)) == 0]: only ASCII white space. *)
Definition is_space (c : ascii) : bool :=
  let n := nat_of_ascii c in
  (n =? 32)%nat || ((9 <=? n)%nat && (n <=? 13)%nat).

Fixpoint blank (s : string) : bool :=
  match s with
  | EmptyString => true
  | String c rest => is_space c && blank rest
  end.

(** [strings.Contains(s, sub)]. *)
Fixpoint Contains (s sub : string) : bool :=
  String.prefix sub s
  || match s with
     | EmptyString => false
     | String _ rest => Contains rest sub
     end.

End Strings.

(** ** Package [path] *)

Module Path.

(** [path.Ext]: scan from the end down to the last slash, return the
    suffix that starts at the first dot met. *)
Fixpoint ext_scan (i : nat) (p : string) : string :=
  match i with
  | O => ""
  | S j =>
      match String.get j p with
      | Some c =>
          if Ascii.eqb c "/" then ""
          else if Ascii.eqb c "." then Strings.drop j p
          else ext_scan j p
      | None => ""
      end
  end.

Definition Ext (p : string) : string := ext_scan (String.length p) p.

(** [path.Clean] on the elements of a path.  [out] is the cleaned path so
    far, last element first. *)
Fixpoint clean_elems (rooted : bool) (out : list string) (elems : list string)
  : list string :=
  match elems with
  | [] => rev out
  | e :: rest =>
      if String.eqb e "" then clean_elems rooted out rest
      else if String.eqb e "." then clean_elems rooted out rest
      else if String.eqb e ".." then
        match out with
        | top :: out' =>
            if String.eqb top ".."
            then clean_elems rooted (e :: out) rest
            else clean_elems rooted out' rest
        | [] =>
            if rooted then clean_elems rooted out rest
            else clean_elems rooted (e :: out) rest
        end
      else clean_elems rooted (e :: out) rest
  end.

Definition Clean (p : string) : string :=
  if String.eqb p "" then "."
  else
    let rooted := Strings.HasPrefix p "/" in
    let body := Strings.Join (clean_elems rooted [] (Strings.Split p "/")) "/" in
    let r := if rooted then "/" +:+ body else body in
    if String.eqb r "" then "." else r.

(** [path.Join]: leading empty elements are dropped, the rest is joined
    with slashes and cleaned. *)
Fixpoint join_buf (buf : string) (elem : list string) : string :=
  match elem with
  | [] => buf
  | e :: rest =>
      if negb (String.eqb buf "") then join_buf (buf +:+ "/" +:+ e) rest
      else if negb (String.eqb e "") then join_buf e rest
      else join_buf buf rest
  end.

Definition Join (elem : list string) : string :=
  let buf := join_buf "" elem in
  if String.eqb buf "" then "" else Clean buf.

End Path.


(** ** Package [io/fs] *)

Module Fs.

(** A read-only file tree.  [File None] is a file whose content cannot
    be read; the entries of a directory are in the order [ReadDir]
    lists them. *)
Inductive node : Type :=
| File (content : option string)
| Dir (entries : list (string * node)).

(** An [fs.FS] is the node of its root directory. *)
Definition FS : Type := node.

Definition IsDir (d : node) : bool :=
  match d with Dir _ => true | File _ => false end.

Fixpoint find_entry (name : string) (entries : list (string * node))
  : option node :=
  match entries with
  | [] => None
  | (n, d) :: rest => if String.eqb n name then Some d else find_entry name rest
  end.

Fixpoint lookup_elems (d : node) (elems : list string) : option node :=
  match elems with
  | [] => Some d
  | e :: rest =>
      match d with
      | Dir entries =>
          match find_entry e entries with
          | Some child => lookup_elems child rest
          | None => None
          end
      | File _ => None
      end
  end.

(** [fs.ValidPath]: ["."], or slash-separated elements none of which is
    empty, ["."] or [".."]. *)
Definition valid_elem (e : string) : bool :=
  negb (String.eqb e "") && negb (String.eqb e ".") && negb (String.eqb e "..").

Definition ValidPath (name : string) : bool :=
  String.eqb name "." || forallb valid_elem (Strings.Split name "/").

Definition Stat (fsys : FS) (name : string) : result fs_error node :=
  if negb (ValidPath name) then Err ErrInvalid
  else if String.eqb name "." then Ok fsys
  else match lookup_elems fsys (Strings.Split name "/") with
       | Some d => Ok d
       | None => Err ErrNotExist
       end.

Definition ReadFile (fsys : FS) (name : string) : result fs_error string :=
  match Stat fsys name with
  | Err e => Err e
  | Ok (Dir _) => Err ErrIsDir
  | Ok (File None) => Err ErrIO
  | Ok (File (Some content)) => Ok content
  end.

Section WalkDir.
Context {St : Type}.

(** [fs.WalkDirFunc].  The [DirEntry] is reduced to what [IsDir]
    reports; the callback of the manager never asks to skip. *)
Definition WalkDirFunc : Type :=
  string -> bool -> option fs_error -> St -> St * option error.

Variable fn : WalkDirFunc.

Fixpoint walkDir (name : string) (d : node) (st : St) : St * option error :=
  match fn name (IsDir d) None st with
  | (st1, Some err) => (st1, Some err)
  | (st1, None) =>
      match d with
      | File _ => (st1, None)
      | Dir entries =>
          (fix walk_entries (es : list (string * node)) (st : St)
             : St * option error :=
             match es with
             | [] => (st, None)
             | (n1, d1) :: rest =>
                 match walkDir (Path.Join [name; n1]) d1 st with
                 | (st2, Some err) => (st2, Some err)
                 | (st2, None) => walk_entries rest st2
                 end
             end) entries st1
      end
  end.

Definition WalkDir (fsys : FS) (root : string) (st : St) : St * option error :=
  match Stat fsys root with
  | Err e => fn root false (Some e) st
  | Ok d => walkDir root d st
  end.
End WalkDir.

(** The calls [walkDir] makes, in order: the path and whether it is a
    directory. *)
Fixpoint visits (name : string) (d : node) : list (string * bool) :=
  (name, IsDir d)
    :: match d with
       | File _ => []
       | Dir entries =>
           (fix below (es : list (string * node)) : list (string * bool) :=
              match es with
              | [] => []
              | (n1, d1) :: rest =>
                  (visits (Path.Join [name; n1]) d1 ++ below rest)%list
              end) entries
       end.

Section Visit.
Context {St : Type}.
Variable fn : WalkDirFunc (St := St).

(** Run the callback over a list of visits, stopping at the first error. *)
Fixpoint visit (l : list (string * bool)) (st : St) : St * option error :=
  match l with
  | [] => (st, None)
  | (p, isDir) :: rest =>
      match fn p isDir None st with
      | (st1, Some err) => (st1, Some err)
      | (st1, None) => visit rest st1
      end
  end.

End Visit.

End Fs.

(** ** Package [html/template]

    The manager needs four things of a template set: create it, parse a
    text into it under a name, clone it, and execute one of its templates.
    A set is the map from names to trees; the parser, the test for an empty
    body and the interpreter come from the [Engine]. *)

Class Engine : Type := {
  tree : Type;
  data : Type;
  (** [parse.Parse(name, text, ...)]: the tree of the text itself under
      [name] and one tree for every [{{define}}] in it. *)
  parse : string -> string -> result string (list (string * tree));
  (** [parse.IsEmptyTree]: nothing but white space and comments. *)
  IsEmptyTree : tree -> bool;
  (** [ExecuteTemplate] into a buffer. *)
  ExecuteTemplate : gmap string tree -> string -> data -> result string string;
}.

Module Template.
Section WithEngine.
Context `{Engine}.

Abbreviation Template := (gmap string tree).

(** [template.New(name).Funcs(funcMap)]: a set without templates. *)
Definition New (name : string) : Template := ∅.

(** [associate] and [AddParseTree]: a tree is installed under its name
    unless the name is taken and the tree is empty.  In the words of the
    package: a template definition with a body containing only white space
    and comments is considered empty and will not replace an existing
    template's body. *)
Definition AddParseTree (t : Template) (name : string) (tr : tree) : Template :=
  match t !! name with
  | Some old => if IsEmptyTree tr then t else <[name := tr]> t
  | None => <[name := tr]> t
  end.

Definition AddParseTrees (t : Template) (trees : list (string * tree)) : Template :=
  foldl (fun acc nt => AddParseTree acc nt.1 nt.2) t trees.

(** [t.New(name).Parse(text)]. *)
Definition NewParse (t : Template) (name text : string) : result error Template :=
  match parse name text with
  | Err msg => Err (LibError msg)
  | Ok trees => Ok (AddParseTrees t trees)
  end.

(** [t.Clone()]; it fails only on a set that was executed, and base
    sets never are. *)
Definition Clone (t : Template) : result error Template := Ok t.
End WithEngine.
End Template.

(** ** [manager.go] *)

Definition LayoutsDir : string := "layouts".
Definition PartialsDir : string := "partials".
Definition ComponentsDir : string := "components".
Definition EmailsDir : string := "emails".

Record TemplateSource : Type := {
  Name : string;
  FS : Fs.FS;
}.

Inductive TemplateFormat : Type :=
| FormatText
| FormatHTML.

#[global] Instance TemplateFormat_eq_dec : EqDecision TemplateFormat.
Proof. solve_decision. Defined.

(** The string a format is in Go. *)
Definition format_string (f : TemplateFormat) : string :=
  match f with
  | FormatText => "text"
  | FormatHTML => "html"
  end.

(** [formatFromFile]; [None] is Go's empty format. *)
Definition formatFromFile (filename : string) : option TemplateFormat :=
  let ext := Path.Ext filename in
  if String.eqb ext ".html" then Some FormatHTML
  else if String.eqb ext ".txt" then Some FormatText
  else None.

Definition Extension (f : TemplateFormat) : string :=
  match f with
  | FormatHTML => ".html"
  | FormatText => ".txt"
  end.

(** [templateName] does not read its receiver. *)
Definition templateName (rootDir filePath : string) : string :=
  let name := Strings.TrimPrefix filePath rootDir in
  let name := Strings.TrimPrefix name "/" in
  let name := Strings.TrimSuffix name (Path.Ext name) in
  if String.eqb rootDir LayoutsDir then "layout:" +:+ name
  else if String.eqb rootDir ComponentsDir then "component:" +:+ name
  else if String.eqb rootDir PartialsDir then "partial:" +:+ name
  else name.

(** The tag a role directory puts before the names of its templates; no
    tag for any other directory. *)
Definition role_tag (rootDir : string) : string :=
  if String.eqb rootDir "layouts" then "layout:"
  else if String.eqb rootDir "components" then "component:"
  else if String.eqb rootDir "partials" then "partial:"
  else "".

(** A file extension proper: no dot and no slash inside. *)
Fixpoint plain_ext (s : string) : bool :=
  match s with
  | EmptyString => true
  | String c rest =>
      negb (Ascii.eqb c "/") && negb (Ascii.eqb c ".") && plain_ext rest
  end.

Record RenderedEmail : Type := {
  Subject : string;
  Text : string;
  HTML : string;
}.

(** [HTMLProcessor]: the one method [Process]. *)
Definition HTMLProcessor : Type := string -> result error string.

Definition DefaultProcessor : HTMLProcessor := fun html => Ok html.

Section Manager.
Context `{Engine}.

(** The function map and the theme of the Go struct are bound into the
    engine; the lock has no part in a sequential run.  [baseTemplates] is
    the two-entry map, one field for each key. *)
Record Manager : Type := {
  processor : option HTMLProcessor;
  defaultLayout : string;
  sources : list TemplateSource;
  baseText : gmap string tree;
  baseHTML : gmap string tree;
  emailCache : gmap string (gmap string tree);
}.

Record ManagerConfig : Type := {
  Processor : option HTMLProcessor;
  Sources : list TemplateSource;
  DefaultLayout : string;
}.

Definition baseTemplates (m : Manager) (f : TemplateFormat) : gmap string tree :=
  match f with
  | FormatText => baseText m
  | FormatHTML => baseHTML m
  end.

Definition set_baseTemplates (m : Manager) (f : TemplateFormat)
  (t : gmap string tree) : Manager :=
  match f with
  | FormatText =>
      {| processor := processor m; defaultLayout := defaultLayout m;
         sources := sources m; baseText := t; baseHTML := baseHTML m;
         emailCache := emailCache m |}
  | FormatHTML =>
      {| processor := processor m; defaultLayout := defaultLayout m;
         sources := sources m; baseText := baseText m; baseHTML := t;
         emailCache := emailCache m |}
  end.

Definition set_sources (m : Manager) (l : list TemplateSource) : Manager :=
  {| processor := processor m; defaultLayout := defaultLayout m;
     sources := l; baseText := baseText m; baseHTML := baseHTML m;
     emailCache := emailCache m |}.

Definition set_emailCache (m : Manager)
  (c : gmap string (gmap string tree)) : Manager :=
  {| processor := processor m; defaultLayout := defaultLayout m;
     sources := sources m; baseText := baseText m; baseHTML := baseHTML m;
     emailCache := c |}.

(** The callback [loadDirectory] hands to [fs.WalkDir]. *)
Definition loadFile (source : TemplateSource) (rootDir : string)
  : Fs.WalkDirFunc (St := Manager) :=
  fun filePath isDir err m =>
    match err with
    | Some ErrNotExist => (m, None)
    | Some e => (m, Some (WalkError filePath (FsError e)))
    | None =>
        if isDir then (m, None)
        else
          match formatFromFile filePath with
          | None => (m, None)
          | Some format =>
              match Fs.ReadFile (FS source) filePath with
              | Err e => (m, Some (ReadFailed filePath (FsError e)))
              | Ok content =>
                  let name := templateName rootDir filePath in
                  let base := baseTemplates m format in
                  match Template.NewParse base name content with
                  | Err e => (m, Some (ParseFailed filePath e))
                  | Ok base' => (set_baseTemplates m format base', None)
                  end
              end
          end
    end.

Definition loadDirectory (m : Manager) (source : TemplateSource)
  (rootDir : string) : Manager * option error :=
  Fs.WalkDir (loadFile source rootDir) (FS source) rootDir m.

(** The body of the loop of [loadBaseTemplates] for one source. *)
Definition loadSource (m : Manager) (source : TemplateSource)
  : Manager * option error :=
  match loadDirectory m source LayoutsDir with
  | (m1, Some err) => (m1, Some (LoadLayoutsFailed (Name source) err))
  | (m1, None) =>
      match loadDirectory m1 source ComponentsDir with
      | (m2, Some err) => (m2, Some (LoadComponentsFailed (Name source) err))
      | (m2, None) =>
          match loadDirectory m2 source PartialsDir with
          | (m3, Some err) => (m3, Some (LoadPartialsFailed (Name source) err))
          | (m3, None) => (m3, None)
          end
      end
  end.

Fixpoint loadSources (m : Manager) (l : list TemplateSource)
  : Manager * option error :=
  match l with
  | [] => (m, None)
  | source :: rest =>
      match loadSource m source with
      | (m1, Some err) => (m1, Some err)
      | (m1, None) => loadSources m1 rest
      end
  end.

Definition loadBaseTemplates (m : Manager) : Manager * option error :=
  let m := set_baseTemplates m FormatText (Template.New "text-base") in
  let m := set_baseTemplates m FormatHTML (Template.New "html-base") in
  loadSources m (sources m).

Definition AddSource (m : Manager) (source : TemplateSource)
  : Manager * option error :=
  let m := set_sources m (sources m ++ [source]) in
  let m := set_emailCache m ∅ in
  loadBaseTemplates m.

Definition ClearCache (m : Manager) : Manager := set_emailCache m ∅.

(** [fmt.Sprintf("%s:%s:%s", format, name, layout)]. *)
Definition cacheKey (name layout : string) (format : TemplateFormat) : string :=
  format_string format +:+ ":" +:+ name +:+ ":" +:+ layout.

(** The loop of [getEmailTemplate] over the sources, last one first:
    [Ok None] when it ends with [found] still false. *)
Fixpoint findEmail (backwards : list TemplateSource) (filename name : string)
  (tmpl : gmap string tree) : result error (option (gmap string tree)) :=
  match backwards with
  | [] => Ok None
  | source :: rest =>
      match Fs.ReadFile (FS source) filename with
      | Ok content =>
          match Template.NewParse tmpl name content with
          | Err e => Err e
          | Ok t => Ok (Some t)
          end
      | Err _ => findEmail rest filename name tmpl
      end
  end.

Definition getEmailTemplate (m : Manager) (name layout : string)
  (format : TemplateFormat) : Manager * result error (gmap string tree) :=
  let key := cacheKey name layout format in
  match emailCache m !! key with
  | Some tmpl => (m, Ok tmpl)
  | None =>
      let base := baseTemplates m format in
      match Template.Clone base with
      | Err e => (m, Err e)
      | Ok tmpl =>
          let filename := Path.Join [EmailsDir; name +:+ Extension format] in
          match findEmail (rev (sources m)) filename name tmpl with
          | Err e => (m, Err e)
          | Ok None => (m, Err (TemplateNotFound filename))
          | Ok (Some tmpl) =>
              (set_emailCache m (<[key := tmpl]> (emailCache m)), Ok tmpl)
          end
      end
  end.

Definition executeTemplate (t : gmap string tree) (name : string) (d : data)
  : result error string :=
  match ExecuteTemplate t name d with
  | Err msg => Err (LibError msg)
  | Ok out => Ok out
  end.

(** The HTML half of [RenderEmail], entered with the text body in hand. *)
Definition renderHTML (m : Manager) (name : string) (d : data)
  (layout text : string) : Manager * result error RenderedEmail :=
  let finish (m : Manager) (html : string) :=
    if String.eqb text "" && String.eqb html ""
    then (m, Err (NoTemplatesFound name))
    else (m, Ok {| Subject := ""; Text := text; HTML := html |}) in
  match getEmailTemplate m name layout FormatHTML with
  | (m1, Ok tmpl) =>
      match executeTemplate tmpl "layout" d with
      | Err err => (m1, Err (RenderHTMLFailed err))
      | Ok html =>
          match processor m1 with
          | Some process =>
              match process html with
              | Err err => (m1, Err (ProcessHTMLFailed err))
              | Ok html' => finish m1 html'
              end
          | None => finish m1 html
          end
      end
  | (m1, Err _) => finish m1 ""
  end.

Definition RenderEmail (m : Manager) (name : string) (d : data)
  (layout : string) : Manager * result error RenderedEmail :=
  let layout := if String.eqb layout "" then defaultLayout m else layout in
  match getEmailTemplate m name layout FormatText with
  | (m1, Ok tmpl) =>
      match executeTemplate tmpl "layout" d with
      | Err err => (m1, Err (RenderTextFailed err))
      | Ok text => renderHTML m1 name d layout text
      end
  | (m1, Err _) => renderHTML m1 name d layout ""
  end.

(** The loop of [NewManager] over the sources of the configuration. *)
Fixpoint addSources (m : Manager) (l : list TemplateSource)
  : result error Manager :=
  match l with
  | [] => Ok m
  | source :: rest =>
      match AddSource m source with
      | (_, Some err) => Err (AddSourceFailed (Name source) err)
      | (m1, None) => addSources m1 rest
      end
  end.

(** [NewManager].  [builtin] is [templates.FS], the embedded tree of the
    [templates] package; a nil configuration is [None]. *)
Definition NewManager (builtin : Fs.FS) (config : option ManagerConfig)
  : result error Manager :=
  let config :=
    match config with
    | Some c => c
    | None => {| Processor := None; Sources := []; DefaultLayout := "" |}
    end in
  let proc :=
    match Processor config with
    | None => Some DefaultProcessor
    | Some p => Some p
    end in
  let layout :=
    if String.eqb (DefaultLayout config) "" then "base"
    else DefaultLayout config in
  let m := {| processor := proc; defaultLayout := layout; sources := [];
              baseText := Template.New "text-base";
              baseHTML := Template.New "html-base";
              emailCache := ∅ |} in
  match AddSource m {| Name := "built-in"; FS := builtin |} with
  | (_, Some err) => Err (AddBuiltinFailed err)
  | (m1, None) => addSources m1 (Sources config)
  end.

End Manager.

(** ** The theme accessor *)

(** The values of a [map[string]any] theme: nil, scalars, nested maps. *)
Inductive any : Type :=
| Nil
| Str (s : string)
| Int (n : Z)
| Map (m : gmap string any).

(** [m[key]] on a Go map: the zero value when the key is missing. *)
Definition index (m : gmap string any) (key : string) : any :=
  match m !! key with
  | Some v => v
  | None => Nil
  end.

(** The [for i, part := range parts] loop of [GetThemeValue]; [n] is
    [len(parts)] and [i] the index of the head of [parts]. *)
Fixpoint themeLoop (n i : nat) (parts : list string) (current : gmap string any)
  : any :=
  match parts with
  | [] => Nil
  | part :: rest =>
      if (i =? n - 1)%nat then index current part
      else
        match index current part with
        | Map next => themeLoop n (S i) rest next
        | _ => Nil
        end
  end.

Definition GetThemeValue (theme : gmap string any) (path : string) : any :=
  if String.eqb path "" then Nil
  else
    let parts := Strings.Split path "." in
    themeLoop (length parts) 0 parts theme.

(** The contract of the accessor in the words of its specification: walk
    the nested mapping along the segments before the last one, then read
    the last one. *)
Fixpoint descend (current : gmap string any) (segments : list string)
  : option (gmap string any) :=
  match segments with
  | [] => Some current
  | seg :: rest =>
      match current !! seg with
      | Some (Map next) => descend next rest
      | _ => None
      end
  end.

Definition lookup_spec (theme : gmap string any) (segments : list string) : any :=
  match segments with
  | [] => Nil
  | _ =>
      match descend theme (removelast segments) with
      | Some m => index m (List.last segments "")
      | None => Nil
      end
  end.

(** ** [funcs.go] *)

Definition int_min : Z := - 2 ^ 63.
Definition int_max : Z := 2 ^ 63 - 1.
Definition is_int (a : Z) : Prop := (int_min <= a <= int_max)%Z.

(** Go's [a % b] on [int]: the remainder of the truncated division, and a
    run-time panic, [None], when [b] is zero. *)
Definition int_rem (a b : Z) : option Z :=
  if (b =? 0)%Z then None else Some (Z.rem a b).

(** [mod], registered as [num_mod]. *)
Definition mod' (a b : Z) : option Z :=
  if (b =? 0)%Z then Some 0%Z else int_rem a b.

(** ** An engine for templates without actions

    A text without a left delimiter parses to one text node, the text
    itself; its tree is empty when the text is blank, and executing it
    writes the text.  This engine rejects every other text. *)
Definition literal_engine : Engine :=
  {| tree := string;
     data := unit;
     parse := fun name text =>
       if Strings.Contains text "{{" then Err "action"
       else Ok [(name, text)];
     IsEmptyTree := Strings.blank;
     ExecuteTemplate := fun t name _ =>
       match t !! name with
       | Some text => Ok text
       | None => Err "undefined"
       end |}.

(** * Definitions for the properties *)

(** ** Naming *)

Fixpoint lacks (sep : ascii) (s : string) : bool :=
  match s with
  | EmptyString => true
  | String c rest => negb (Ascii.eqb c sep) && lacks sep rest
  end.

(** ** The load sequence *)

Section LoadSequence.
Context `{Engine}.

(** The trees one visit of [loadDirectory] adds to the base set of format
    [f]: those of the file when it is a template file of that format that
    reads and parses, none otherwise. *)
Definition file_trees (source : TemplateSource) (rootDir : string)
  (f : TemplateFormat) (v : string * bool) : list (string * tree) :=
  if v.2 then []
  else
    match formatFromFile v.1 with
    | None => []
    | Some format =>
        if decide (format = f) then
          match Fs.ReadFile (FS source) v.1 with
          | Err _ => []
          | Ok content =>
              match parse (templateName rootDir v.1) content with
              | Err _ => []
              | Ok trees => trees
              end
          end
        else []
    end.

Definition dir_trees (source : TemplateSource) (rootDir : string)
  (f : TemplateFormat) : list (string * tree) :=
  match Fs.Stat (FS source) rootDir with
  | Err _ => []
  | Ok d => flat_map (file_trees source rootDir f) (Fs.visits rootDir d)
  end.

(** Layouts, then components, then partials. *)
Definition source_trees (source : TemplateSource) (f : TemplateFormat)
  : list (string * tree) :=
  dir_trees source LayoutsDir f ++ dir_trees source ComponentsDir f
    ++ dir_trees source PartialsDir f.

(** The load sequence of format [f]: every source in registration order. *)
Definition all_trees (l : list TemplateSource) (f : TemplateFormat)
  : list (string * tree) :=
  flat_map (fun source => source_trees source f) l.

(** [loads full m out]: the step from [m] to [out] touched the base sets
    only, and added to each the trees of [full] in order, all of them when
    it ended without error and some of the first ones when it failed. *)
Definition loads (full : TemplateFormat -> list (string * tree))
  (m : Manager) (out : Manager * option error) : Prop :=
  sources out.1 = sources m /\ emailCache out.1 = emailCache m
  /\ processor out.1 = processor m /\ defaultLayout out.1 = defaultLayout m
  /\ forall f, exists ds,
       ds `prefix_of` full f /\ (out.2 = None -> ds = full f)
       /\ baseTemplates out.1 f = Template.AddParseTrees (baseTemplates m f) ds.

(** A manager whose base sets are the full rebuild of its sources and
    whose cache is empty: the state a successful [AddSource] leaves. *)
Definition rebuilt (m : Manager) : Prop :=
  emailCache m = ∅
  /\ forall f, baseTemplates m f = Template.AddParseTrees ∅ (all_trees (sources m) f).


End LoadSequence.

(** ** Resolution and rendering *)

(** The path [getEmailTemplate] looks for in every source. *)
Definition emailFile (name : string) (format : TemplateFormat) : string :=
  Path.Join [EmailsDir; name +:+ Extension format].

(** A source has the document when the file can be read from it. *)
Definition hasEmail (filename : string) (source : TemplateSource) : bool :=
  is_ok (Fs.ReadFile (FS source) filename).

Section Resolving.
Context `{Engine}.

(** What a cache miss computes: the clone of the base set with the
    document of the most recent source that has it parsed in. *)
Definition resolveEmail (m : Manager) (name : string) (format : TemplateFormat)
  : result error (gmap string tree) :=
  match findEmail (rev (sources m)) (emailFile name format) name
          (baseTemplates m format) with
  | Err e => Err e
  | Ok None => Err (TemplateNotFound (emailFile name format))
  | Ok (Some tmpl) => Ok tmpl
  end.

(** The layout a render uses: the default one for the empty name. *)
Definition layoutOf (m : Manager) (layout : string) : string :=
  if String.eqb layout "" then defaultLayout m else layout.

(** The post-processing step of a render. *)
Definition processHTML (m : Manager) (html : string)
  : result error string :=
  match processor m with
  | Some process => process html
  | None => Ok html
  end.

End Resolving.

(** ** The built-in source *)

(** The sources of a configuration, none for a nil one. *)
Definition userSources (config : option ManagerConfig) : list TemplateSource :=
  match config with
  | Some c => Sources c
  | None => []
  end.

Definition builtinSource (builtin : Fs.FS) : TemplateSource :=
  {| Name := "built-in"; FS := builtin |}.

(** ** The rules of the specification, read literally *)

(** The precedence rule read literally: the set holds, for an identifier,
    a definition of the last source that declares it. *)
Definition last_declaration_wins : Prop :=
  forall (E : Engine) (m : Manager) (l1 : list TemplateSource)
    (s : TemplateSource) (l2 : list TemplateSource) (f : TemplateFormat)
    (id : string),
    sources m = l1 ++ s :: l2 ->
    (loadBaseTemplates m).2 = None ->
    id ∈ (source_trees s f).*1 ->
    (forall s', s' ∈ l2 -> id ∉ (source_trees s' f).*1) ->
    exists tr, (id, tr) ∈ source_trees s f
      /\ baseTemplates (loadBaseTemplates m).1 f !! id = Some tr.


(** The outcome rule read literally, for a document that has a text
    version only: the render succeeds. *)
Definition text_only_renders : Prop :=
  forall (E : Engine) (m m1 : Manager) (name : string) (d : data)
    (layout : string) (tmpl : gmap string tree) (e : error),
    getEmailTemplate m name (layoutOf m layout) FormatText = (m1, Ok tmpl) ->
    (getEmailTemplate m1 name (layoutOf m layout) FormatHTML).2 = Err e ->
    is_ok (RenderEmail m name d layout).2 = true.

(** The consequence read literally: what a user source declares under an
    identifier of the built-in source is what the base set holds. *)
Definition user_definition_overrides : Prop :=
  forall (E : Engine) (builtin : Fs.FS) (config : option ManagerConfig)
    (m : Manager) (l1 : list TemplateSource) (s : TemplateSource)
    (l2 : list TemplateSource) (f : TemplateFormat) (id : string),
    NewManager builtin config = Ok m ->
    userSources config = l1 ++ s :: l2 ->
    id ∈ (source_trees (builtinSource builtin) f).*1 ->
    id ∈ (source_trees s f).*1 ->
    (forall s', s' ∈ l2 -> id ∉ (source_trees s' f).*1) ->
    exists tr, (id, tr) ∈ source_trees s f /\ baseTemplates m f !! id = Some tr.

(** ** Sample themes, sources and managers *)

Definition theme_example : gmap string any :=
  {[ "a" := Map {[ "b" := Str "v" ]} ]}.

Definition blank_manager : @Manager literal_engine :=
  {| processor := Some DefaultProcessor; defaultLayout := "base";
     sources := []; baseText := ∅; baseHTML := ∅; emailCache := ∅ |}.

(** One component, [components/x.html], with the given text. *)
Definition component_x (name text : string) : TemplateSource :=
  {| Name := name;
     FS := Fs.Dir [("components", Fs.Dir [("x.html", Fs.File (Some text))])] |}.

(** One document, [emails/<file>], with the given text. *)
Definition email_source (name file text : string) : TemplateSource :=
  {| Name := name;
     FS := Fs.Dir [("emails", Fs.Dir [(file, Fs.File (Some text))])] |}.

Definition base_and_override : @Manager literal_engine :=
  set_sources blank_manager
    [email_source "base" "welcome.html" "Hello";
     email_source "override" "welcome.html" "Hi"].

(** The manager that has rendered [welcome] from the source [base]. *)
Definition welcome_cached : @Manager literal_engine :=
  (getEmailTemplate
     (AddSource blank_manager (email_source "base" "welcome.html" "Hello")).1
     "welcome" "base" FormatHTML).1.

Definition layout_a : TemplateSource :=
  {| Name := "base";
     FS := Fs.Dir [("layouts", Fs.Dir [("a.html", Fs.File (Some "first"))])] |}.


(** A text document named [layout], which is its own entry point. *)
Definition text_only : @Manager literal_engine :=
  (AddSource blank_manager (email_source "plain" "layout.txt" "hello")).1.

(** A text document with no entry point to execute. *)
Definition text_without_layout : @Manager literal_engine :=
  (AddSource blank_manager (email_source "plain" "note.txt" "hello")).1.

(** One component, [components/alert.html], with the given text. *)
Definition alert_tree (text : string) : Fs.FS :=
  Fs.Dir [("components", Fs.Dir [("alert.html", Fs.File (Some text))])].

Definition user_config (text : string) : option ManagerConfig :=
  Some {| Processor := None;
          Sources := [{| Name := "user"; FS := alert_tree text |}];
          DefaultLayout := "" |}.

(** What [NewManager] returns for a user who replaces the built-in alert,
    and for one whose alert is blank. *)
Abbreviation custom_alert :=
  (NewManager (H := literal_engine) (alert_tree "built-in") (user_config "custom")).
Abbreviation blank_alert :=
  (NewManager (H := literal_engine) (alert_tree "built-in") (user_config " ")).

(** * Further definitions *)

(** ** The cache *)

(** Every cached template is the resolution of some document against the
    sources and base sets the manager has now. *)
Definition cache_current `{Engine} (m : Manager) : Prop :=
  forall key t, emailCache m !! key = Some t ->
    exists name layout format,
      key = cacheKey name layout format /\ resolveEmail m name format = Ok t.

(** Documents named [layout], blank in both formats. *)
Definition blank_documents : @Manager literal_engine :=
  set_sources blank_manager
    [{| Name := "blank";
        FS := Fs.Dir [("emails", Fs.Dir [("layout.html", Fs.File (Some ""));
                                          ("layout.txt", Fs.File (Some ""))])] |}].

(** ** The registry and the base sets *)


(** The three role directories. *)
Definition roleDirs : list string := [LayoutsDir; ComponentsDir; PartialsDir].

(** The processor and the default layout [NewManager] settles on. *)
Definition configuredProcessor (config : option ManagerConfig) : HTMLProcessor :=
  match config with
  | Some c => match Processor c with Some p => p | None => DefaultProcessor end
  | None => DefaultProcessor
  end.

Definition configuredLayout (config : option ManagerConfig) : string :=
  match config with
  | Some c => if String.eqb (DefaultLayout c) "" then "base" else DefaultLayout c
  | None => "base"
  end.

(** ** [funcs.go]: the other helpers *)

(** The value an [int] holds after an operation whose exact result is
    [a]: Go's signed integers wrap around (64 bits). *)
Definition wrap_int (a : Z) : Z := ((a - int_min) mod 2 ^ 64 + int_min)%Z.

Definition intAdd (a b : Z) : Z := wrap_int (a + b).

Definition intSub (a b : Z) : Z := wrap_int (a - b).

(** The two errors of [newMap]. *)
Inductive newMap_error : Type :=
| PairsRequired
| KeyNotString (key : any).

(** The loop of [newMap], two arguments at a time.  It is entered with an
    even number of arguments, so a last argument without a partner does not
    occur. *)
Fixpoint newMap_loop (pairs : list any) (res : gmap string any)
  : result newMap_error (gmap string any) :=
  match pairs with
  | [] => Ok res
  | Str key :: value :: rest => newMap_loop rest (<[key := value]> res)
  | other :: _ :: _ => Err (KeyNotString other)
  | [_] => Err PairsRequired
  end.

Definition newMap (pairs : list any) : result newMap_error (gmap string any) :=
  if (length pairs mod 2 =? 0)%nat then newMap_loop pairs ∅
  else Err PairsRequired.

(** The arguments that spell a list of keys and values. *)
Definition pairs_of (kvs : list (string * any)) : list any :=
  flat_map (fun kv => [Str kv.1; kv.2]) kvs.

(** [for key, value := range src { dst[key] = value }]. *)
Definition copyInto {V : Type} (dst src : gmap string V) : gmap string V :=
  map_fold (fun key value acc => <[key := value]> acc) dst src.

(** The loop of [MergeFuncMaps]; a nil map is [None]. *)
Fixpoint MergeFuncMaps_loop {F : Type} (maps : list (option (gmap string F)))
  (res : gmap string F) : gmap string F :=
  match maps with
  | [] => res
  | None :: rest => MergeFuncMaps_loop rest res
  | Some m :: rest => MergeFuncMaps_loop rest (copyInto res m)
  end.

Definition MergeFuncMaps {F : Type} (maps : list (option (gmap string F)))
  : gmap string F :=
  MergeFuncMaps_loop maps ∅.

(** ** [template_data.go] and [mergeData] *)

(** [mergeData] of [mailpen.go]. *)
Definition mergeData (base overlay : gmap string any) : gmap string any :=
  copyInto (copyInto ∅ base) overlay.

(** [TemplateData.Merge]. *)
Definition Merge (td data : gmap string any) : gmap string any :=
  copyInto (copyInto ∅ td) data.

(** [TemplateData.MergeKeys]. *)
Definition MergeKeys (td data : gmap string any) : gmap string any :=
  map_fold
    (fun k v merged =>
       match index merged k, v with
       | Map existingMap, Map newMap =>
           <[k := Map (copyInto (copyInto ∅ existingMap) newMap)]> merged
       | _, _ => <[k := v]> merged
       end)
    (copyInto ∅ td) data.

(** What [MergeKeys] leaves under one key. *)
Definition mergedValue (old : option any) (new : any) : any :=
  match old, new with
  | Some (Map existingMap), Map newMap => Map (newMap ∪ existingMap)
  | _, _ => new
  end.

(** ** The composite processor *)

(** [CompositeProcessor.Process]. *)
Fixpoint CompositeProcess (processors : list HTMLProcessor) (html : string)
  : result error string :=
  match processors with
  | [] => Ok html
  | process :: rest =>
      match process html with
      | Err err => Err err
      | Ok html' => CompositeProcess rest html'
      end
  end.

(** ** [mailpen.go] *)

Module Cfg.
(** [Config]; its function map is bound into the engine. *)
Record Config : Type := {
  From : string;
  ReplyTo : string;
  BaseURL : string;
  CompanyAddress1 : string;
  CompanyAddress2 : string;
  CompanyName : string;
  LogoURL : string;
  SupportEmail : string;
  SupportPhone : string;
  WebsiteName : string;
  WebsiteURL : string;
  HTMLProcessor : option HTMLProcessor;
  SiteLinks : gmap string string;
  SocialMediaLinks : gmap string string;
  Extensions : list string;
  Sources : list TemplateSource;
}.
End Cfg.

Inductive mailpen_error : Type :=
| ManagerError (e : error)
| ProviderRequired
| ConfigRequired
| CreateManagerFailed (e : error)
| RegisterBuiltinFailed (e : mailpen_error)
| AddTemplateSourceFailed (e : error)
| AddTemplateSourcesFailed (e : mailpen_error)
| ApplyOptionFailed (e : mailpen_error)
| ComponentExists (name : string).

Section Mailpen.
Context `{Engine}.
Variables Provider Component : Type.

Record Mailpen : Type := {
  config : Cfg.Config;
  provider : Provider;
  templateMgr : Manager;
  components : gmap string Component;
  htmlProcessor : option HTMLProcessor;
}.

(** [Option]: a function that may change the instance and may fail. *)
Definition Option : Type := Mailpen -> Mailpen * option mailpen_error.

Definition set_templateMgr (mp : Mailpen) (tm : Manager) : Mailpen :=
  {| config := config mp; provider := provider mp; templateMgr := tm;
     components := components mp; htmlProcessor := htmlProcessor mp |}.

Definition set_components (mp : Mailpen) (c : gmap string Component) : Mailpen :=
  {| config := config mp; provider := provider mp;
     templateMgr := templateMgr mp; components := c;
     htmlProcessor := htmlProcessor mp |}.

Definition registerBuiltinComponents (mp : Mailpen)
  : Mailpen * option mailpen_error :=
  (mp, None).

Definition addTemplateSource (mp : Mailpen) (source : TemplateSource)
  : Mailpen * option error :=
  let out := AddSource (templateMgr mp) source in
  (set_templateMgr mp out.1, out.2).

Fixpoint addTemplateSources (mp : Mailpen) (l : list TemplateSource)
  : Mailpen * option mailpen_error :=
  match l with
  | [] => (mp, None)
  | source :: rest =>
      match addTemplateSource mp source with
      | (mp1, Some err) => (mp1, Some (AddTemplateSourceFailed err))
      | (mp1, None) => addTemplateSources mp1 rest
      end
  end.

(** The loop of [New] over its options. *)
Fixpoint applyOptions (mp : Mailpen) (opts : list Option)
  : result mailpen_error Mailpen :=
  match opts with
  | [] => Ok mp
  | opt :: rest =>
      match opt mp with
      | (_, Some err) => Err (ApplyOptionFailed err)
      | (mp1, None) => applyOptions mp1 rest
      end
  end.

(** [New]; a nil provider or configuration is [None], and [builtin] is
    [templates.FS] as for [NewManager]. *)
Definition New (builtin : Fs.FS) (prov : option Provider)
  (cfg : option Cfg.Config) (opts : list Option)
  : result mailpen_error Mailpen :=
  match prov with
  | None => Err ProviderRequired
  | Some prov =>
      match cfg with
      | None => Err ConfigRequired
      | Some cfg =>
          let tmOpts := {| Processor := Cfg.HTMLProcessor cfg;
                           Sources := Cfg.Sources cfg;
                           DefaultLayout := "" |} in
          match NewManager builtin (Some tmOpts) with
          | Err err => Err (CreateManagerFailed err)
          | Ok tm =>
              let mp := {| config := cfg; provider := prov; templateMgr := tm;
                           components := ∅; htmlProcessor := None |} in
              match registerBuiltinComponents mp with
              | (_, Some err) => Err (RegisterBuiltinFailed err)
              | (mp, None) =>
                  match addTemplateSources mp (Cfg.Sources cfg) with
                  | (_, Some err) => Err (AddTemplateSourcesFailed err)
                  | (mp, None) => applyOptions mp opts
                  end
              end
          end
      end
  end.

Definition RegisterComponent (mp : Mailpen) (name : string)
  (component : Component) : Mailpen * option mailpen_error :=
  match components mp !! name with
  | Some _ => (mp, Some (ComponentExists name))
  | None => (set_components mp (<[name := component]> (components mp)), None)
  end.

Definition GetComponent (mp : Mailpen) (name : string) : option Component :=
  components mp !! name.

End Mailpen.

(** ** Precedence within one load sequence *)

Section Settling.
Context `{Engine}.

(** The last definition of [id] in a sequence that has a body, and the
    first definition of [id]. *)
Fixpoint last_body (id : string) (ds : list (string * tree)) : option tree :=
  match ds with
  | [] => None
  | (name, tr) :: rest =>
      match last_body id rest with
      | Some t => Some t
      | None =>
          if decide (name = id) then
            if IsEmptyTree tr then None else Some tr
          else None
      end
  end.

Fixpoint first_def (id : string) (ds : list (string * tree)) : option tree :=
  match ds with
  | [] => None
  | (name, tr) :: rest => if decide (name = id) then Some tr else first_def id rest
  end.

(** What a set holds under [id] once the sequence is parsed into it. *)
Definition settled (old : option tree) (id : string) (ds : list (string * tree))
  : option tree :=
  match last_body id ds with
  | Some t => Some t
  | None =>
      match old with
      | Some t => Some t
      | None => first_def id ds
      end
  end.

End Settling.

(** A configuration with one source, the component [x]. *)
Definition one_source_config : Cfg.Config :=
  {| Cfg.From := "from@example.com"; Cfg.ReplyTo := ""; Cfg.BaseURL := "";
     Cfg.CompanyAddress1 := ""; Cfg.CompanyAddress2 := "";
     Cfg.CompanyName := ""; Cfg.LogoURL := ""; Cfg.SupportEmail := "";
     Cfg.SupportPhone := ""; Cfg.WebsiteName := ""; Cfg.WebsiteURL := "";
     Cfg.HTMLProcessor := None; Cfg.SiteLinks := ∅;
     Cfg.SocialMediaLinks := ∅; Cfg.Extensions := [];
     Cfg.Sources := [component_x "user" "custom"] |}.

(** ** [message.go] *)

Module Msg.
Section WithReader.
(** [io.Reader], of which the builder only keeps the value. *)
Variable Reader : Type.

Record Attachment : Type := {
  Filename : string;
  Data : Reader;
  ContentType : string;
}.

Record Message : Type := {
  From : string;
  To : list string;
  Cc : list string;
  Bcc : list string;
  ReplyTo : string;
  Subject : string;
  TemplateData : gmap string any;
  Layout : string;
  Template : string;
  TextBody : string;
  HTMLBody : string;
  Attachments : list Attachment;
}.

Record Builder : Type := {
  msg : Message;
  err : option error;
}.

Inductive build_error : Type :=
| BuilderError (e : error)
| NoRecipient.

Definition NewMessage : Builder :=
  {| msg := {| From := ""; To := []; Cc := []; Bcc := []; ReplyTo := "";
               Subject := ""; TemplateData := ∅; Layout := ""; Template := "";
               TextBody := ""; HTMLBody := ""; Attachments := [] |};
     err := None |}.

(** The shape every method has: nothing when [err] is set, else a change
    of the message. *)
Definition update (b : Builder) (change : Message -> Message) : Builder :=
  match err b with
  | Some _ => b
  | None => {| msg := change (msg b); err := err b |}
  end.

Definition setFrom (b : Builder) (address : string) : Builder :=
  update b (fun m =>
    {| From := address; To := To m; Cc := Cc m; Bcc := Bcc m;
       ReplyTo := ReplyTo m; Subject := Subject m;
       TemplateData := TemplateData m; Layout := Layout m;
       Template := Template m; TextBody := TextBody m; HTMLBody := HTMLBody m;
       Attachments := Attachments m |}).

Definition addTo (b : Builder) (addresses : list string) : Builder :=
  update b (fun m =>
    {| From := From m; To := To m ++ addresses; Cc := Cc m; Bcc := Bcc m;
       ReplyTo := ReplyTo m; Subject := Subject m;
       TemplateData := TemplateData m; Layout := Layout m;
       Template := Template m; TextBody := TextBody m; HTMLBody := HTMLBody m;
       Attachments := Attachments m |}).

Definition addCc (b : Builder) (addresses : list string) : Builder :=
  update b (fun m =>
    {| From := From m; To := To m; Cc := Cc m ++ addresses; Bcc := Bcc m;
       ReplyTo := ReplyTo m; Subject := Subject m;
       TemplateData := TemplateData m; Layout := Layout m;
       Template := Template m; TextBody := TextBody m; HTMLBody := HTMLBody m;
       Attachments := Attachments m |}).

Definition addBcc (b : Builder) (addresses : list string) : Builder :=
  update b (fun m =>
    {| From := From m; To := To m; Cc := Cc m; Bcc := Bcc m ++ addresses;
       ReplyTo := ReplyTo m; Subject := Subject m;
       TemplateData := TemplateData m; Layout := Layout m;
       Template := Template m; TextBody := TextBody m; HTMLBody := HTMLBody m;
       Attachments := Attachments m |}).

Definition setReplyTo (b : Builder) (address : string) : Builder :=
  update b (fun m =>
    {| From := From m; To := To m; Cc := Cc m; Bcc := Bcc m;
       ReplyTo := address; Subject := Subject m;
       TemplateData := TemplateData m; Layout := Layout m;
       Template := Template m; TextBody := TextBody m; HTMLBody := HTMLBody m;
       Attachments := Attachments m |}).

Definition setSubject (b : Builder) (subject : string) : Builder :=
  update b (fun m =>
    {| From := From m; To := To m; Cc := Cc m; Bcc := Bcc m;
       ReplyTo := ReplyTo m; Subject := subject;
       TemplateData := TemplateData m; Layout := Layout m;
       Template := Template m; TextBody := TextBody m; HTMLBody := HTMLBody m;
       Attachments := Attachments m |}).

Definition WithData (b : Builder) (data : gmap string any) : Builder :=
  update b (fun m =>
    {| From := From m; To := To m; Cc := Cc m; Bcc := Bcc m;
       ReplyTo := ReplyTo m; Subject := Subject m;
       TemplateData := data; Layout := Layout m;
       Template := Template m; TextBody := TextBody m; HTMLBody := HTMLBody m;
       Attachments := Attachments m |}).

Definition setTemplate (b : Builder) (name : string) : Builder :=
  update b (fun m =>
    {| From := From m; To := To m; Cc := Cc m; Bcc := Bcc m;
       ReplyTo := ReplyTo m; Subject := Subject m;
       TemplateData := TemplateData m; Layout := Layout m;
       Template := name; TextBody := TextBody m; HTMLBody := HTMLBody m;
       Attachments := Attachments m |}).

Definition setLayout (b : Builder) (name : string) : Builder :=
  update b (fun m =>
    {| From := From m; To := To m; Cc := Cc m; Bcc := Bcc m;
       ReplyTo := ReplyTo m; Subject := Subject m;
       TemplateData := TemplateData m; Layout := name;
       Template := Template m; TextBody := TextBody m; HTMLBody := HTMLBody m;
       Attachments := Attachments m |}).

Definition AttachWithContentType (b : Builder) (filename : string)
  (data : Reader) (contentType : string) : Builder :=
  update b (fun m =>
    {| From := From m; To := To m; Cc := Cc m; Bcc := Bcc m;
       ReplyTo := ReplyTo m; Subject := Subject m;
       TemplateData := TemplateData m; Layout := Layout m;
       Template := Template m; TextBody := TextBody m; HTMLBody := HTMLBody m;
       Attachments := Attachments m
         ++ [{| Filename := filename; Data := data;
                ContentType := contentType |}] |}).

(** [Attach] leaves the content type empty. *)
Definition Attach (b : Builder) (filename : string) (data : Reader) : Builder :=
  AttachWithContentType b filename data "".

Definition Build (b : Builder) : result build_error Message :=
  match err b with
  | Some e => Err (BuilderError e)
  | None =>
      if (length (To (msg b)) =? 0)%nat then Err NoRecipient
      else Ok (msg b)
  end.

(** One call of a builder method, and a chain of calls. *)
Inductive call : Type :=
| CallFrom (address : string)
| CallTo (addresses : list string)
| CallCc (addresses : list string)
| CallBcc (addresses : list string)
| CallReplyTo (address : string)
| CallSubject (subject : string)
| CallWithData (data : gmap string any)
| CallTemplate (name : string)
| CallLayout (name : string)
| CallAttach (filename : string) (data : Reader)
| CallAttachWithContentType (filename : string) (data : Reader)
    (contentType : string).

Definition apply_call (b : Builder) (c : call) : Builder :=
  match c with
  | CallFrom a => setFrom b a
  | CallTo l => addTo b l
  | CallCc l => addCc b l
  | CallBcc l => addBcc b l
  | CallReplyTo a => setReplyTo b a
  | CallSubject s => setSubject b s
  | CallWithData d => WithData b d
  | CallTemplate n => setTemplate b n
  | CallLayout n => setLayout b n
  | CallAttach f d => Attach b f d
  | CallAttachWithContentType f d ct => AttachWithContentType b f d ct
  end.

Definition chain (calls : list call) : Builder := foldl apply_call NewMessage calls.

(** The addresses the [To] calls of a chain give, in order. *)
Definition recipients (calls : list call) : list string :=
  flat_map (fun c => match c with CallTo l => l | _ => [] end) calls.

End WithReader.
End Msg.

(** ** Path elements *)

(** A path element proper: not empty, not a dot name, without slash. *)
Definition segment (s : string) : Prop :=
  lacks "/" s = true /\ s <> "" /\ s <> "." /\ s <> "..".

(** * Properties *)

(** ** Strings *)

Lemma length_append (a b : string) :
  String.length (a +:+ b) = String.length a + String.length b.
Proof. induction a as [|c a IH]; simpl; [reflexivity | now rewrite IH]. Qed.

Lemma substring_all (s : string) : String.substring 0 (String.length s) s = s.
Proof. induction s as [|c s IH]; simpl; [reflexivity | now rewrite IH]. Qed.

Lemma take_append (a b : string) : Strings.take (String.length a) (a +:+ b) = a.
Proof.
  unfold Strings.take. induction a as [|c a IH]; simpl.
  - now destruct b.
  - now rewrite IH.
Qed.

Lemma substring_skip (a b : string) (n : nat) :
  String.substring (String.length a) n (a +:+ b) = String.substring 0 n b.
Proof. induction a as [|c a IH]; simpl; [reflexivity | exact IH]. Qed.

Lemma drop_append (a b : string) : Strings.drop (String.length a) (a +:+ b) = b.
Proof.
  unfold Strings.drop. rewrite substring_skip, length_append.
  replace (String.length a + String.length b - String.length a)
    with (String.length b) by lia.
  apply substring_all.
Qed.

Lemma HasPrefix_append (a b : string) : Strings.HasPrefix (a +:+ b) a = true.
Proof.
  unfold Strings.HasPrefix. rewrite take_append, String.eqb_refl, length_append.
  rewrite andb_true_r. apply Nat.leb_le. lia.
Qed.

Lemma TrimPrefix_append (a b : string) : Strings.TrimPrefix (a +:+ b) a = b.
Proof. unfold Strings.TrimPrefix. now rewrite HasPrefix_append, drop_append. Qed.

Lemma TrimPrefix_absent (s p : string) :
  Strings.HasPrefix s p = false -> Strings.TrimPrefix s p = s.
Proof. unfold Strings.TrimPrefix. now intros ->. Qed.

Lemma HasSuffix_append (a b : string) : Strings.HasSuffix (a +:+ b) b = true.
Proof.
  unfold Strings.HasSuffix. rewrite length_append.
  replace (String.length a + String.length b - String.length b)
    with (String.length a) by lia.
  rewrite drop_append, String.eqb_refl, andb_true_r. apply Nat.leb_le. lia.
Qed.

Lemma TrimSuffix_append (a b : string) : Strings.TrimSuffix (a +:+ b) b = a.
Proof.
  unfold Strings.TrimSuffix. rewrite HasSuffix_append, length_append.
  replace (String.length a + String.length b - String.length b)
    with (String.length a) by lia.
  apply take_append.
Qed.

Lemma append_assoc (a b c : string) : (a +:+ b) +:+ c = a +:+ (b +:+ c).
Proof.
  induction a as [|x a IH]; [reflexivity|].
  change (String x ((a +:+ b) +:+ c) = String x (a +:+ (b +:+ c))).
  now rewrite IH.
Qed.

(** ** [path.Ext] *)

Lemma plain_ext_get (e : string) (k : nat) (c : ascii) :
  plain_ext e = true -> String.get k e = Some c ->
  Ascii.eqb c "/" = false /\ Ascii.eqb c "." = false.
Proof.
  revert k. induction e as [|x e IH]; intros k He Hget; simpl in *.
  - discriminate.
  - apply andb_prop in He as [He1 He3]. apply andb_prop in He1 as [He1 He2].
    destruct k as [|k].
    + injection Hget as <-. split; now apply negb_true_iff.
    + eauto.
Qed.

(** The scan walks back over a tail that has neither dot nor slash. *)
Lemma ext_scan_tail (pre e : string) (k : nat) :
  plain_ext e = true -> k <= String.length e ->
  Path.ext_scan (String.length pre + k) (pre +:+ e)
  = Path.ext_scan (String.length pre) (pre +:+ e).
Proof.
  intros He. induction k as [|k IH]; intros Hk.
  - now rewrite Nat.add_0_r.
  - rewrite Nat.add_succ_r. simpl.
    rewrite (Nat.add_comm (String.length pre) k), <- append_correct2.
    destruct (String.get k e) as [c|] eqn:Hget.
    + destruct (plain_ext_get e k c He Hget) as [-> ->].
      rewrite (Nat.add_comm k). apply IH. lia.
    + exfalso. revert Hget. clear - Hk. revert k Hk.
      induction e as [|x e IHe]; intros k Hk; simpl in *; [lia|].
      destruct k; [discriminate|]. apply IHe. lia.
Qed.

Lemma Ext_stem_ext (stem e : string) :
  plain_ext e = true -> Path.Ext (stem +:+ "." +:+ e) = "." +:+ e.
Proof.
  intros He. unfold Path.Ext.
  rewrite <- (append_assoc stem "." e).
  rewrite length_append, ext_scan_tail by (auto; lia).
  rewrite length_append. simpl String.length. rewrite Nat.add_1_r.
  rewrite (append_assoc stem "." e).
  cbn [Path.ext_scan].
  replace (String.get (String.length stem) (stem +:+ "." +:+ e))
    with (String.get 0 ("." +:+ e))
    by (rewrite (append_correct2 stem ("." +:+ e) 0); reflexivity).
  simpl. apply drop_append.
Qed.

(** ** C8: canonical identifiers *)

Lemma templateName_tag (rootDir name filePath : string) :
  Strings.TrimPrefix (Strings.TrimPrefix filePath rootDir) "/" = name ->
  templateName rootDir filePath
  = role_tag rootDir +:+ Strings.TrimSuffix name (Path.Ext name).
Proof.
  intros Hname. unfold templateName, role_tag. rewrite Hname.
  unfold LayoutsDir, ComponentsDir, PartialsDir.
  repeat destruct (String.eqb rootDir _); reflexivity.
Qed.

(** C8.  For a file [rootDir/rel] the name is the role tag of [rootDir]
    ("layout:", "component:", "partial:" for the three role directories,
    nothing for any other directory such as the documents root) followed
    by [rel] without its extension; when [rel] is [stem.ext] that is the
    tag followed by [stem]. *)
Theorem templateName_canonical (rootDir rel : string) :
  templateName rootDir (rootDir +:+ "/" +:+ rel)
  = role_tag rootDir +:+ Strings.TrimSuffix rel (Path.Ext rel)
  /\ (role_tag "layouts" = "layout:" /\ role_tag "components" = "component:"
      /\ role_tag "partials" = "partial:" /\ role_tag "emails" = "")
  /\ (forall stem ext, rel = stem +:+ "." +:+ ext -> plain_ext ext = true ->
        templateName rootDir (rootDir +:+ "/" +:+ rel) = role_tag rootDir +:+ stem).
Proof.
  assert (Hname : Strings.TrimPrefix
            (Strings.TrimPrefix (rootDir +:+ "/" +:+ rel) rootDir) "/" = rel).
  { rewrite TrimPrefix_append. apply (TrimPrefix_append "/" rel). }
  split; [now apply templateName_tag|]. split; [now repeat split|].
  intros stem ext -> Hext.
  rewrite (templateName_tag _ _ _ Hname), Ext_stem_ext by assumption.
  f_equal. apply TrimSuffix_append.
Qed.

Lemma templateName_canonical_witness :
  templateName "components" "components/buttons/primary.html"
  = "component:buttons/primary".
Proof.
  destruct (templateName_canonical "components" "buttons/primary.html")
    as (_ & _ & Hstem).
  exact (Hstem "buttons/primary" "html" eq_refl eq_refl).
Defined.

(** ** C10: [mod] *)

Lemma int_rem_in_range (a b r : Z) :
  is_int a -> is_int b -> int_rem a b = Some r -> is_int r.
Proof.
  unfold is_int, int_min, int_max, int_rem. intros Ha Hb.
  destruct (Z.eqb_spec b 0) as [|Hb0]; [discriminate|].
  intros [= <-].
  pose proof (Z.rem_bound_abs a b Hb0). lia.
Qed.

(** C10.  [mod a b] always returns: it is 0 when [b] is 0, where Go's
    [a % b] would panic, and it is [a % b] otherwise. *)
Theorem mod_total (a b : Z) :
  mod' a b = Some (if (b =? 0)%Z then 0%Z else Z.rem a b)
  /\ (if (b =? 0)%Z then int_rem a b = None else mod' a b = int_rem a b).
Proof.
  unfold mod', int_rem. destruct (Z.eqb_spec b 0); auto.
Qed.

(** ** C6: theme lookup *)

Lemma index_Map (m next : gmap string any) (key : string) :
  index m key = Map next <-> m !! key = Some (Map next).
Proof.
  unfold index. destruct (m !! key) as [v|]; split; intro Heq;
    try congruence; discriminate.
Qed.

(** The loop of [GetThemeValue] refines [lookup_spec] from any position. *)
Lemma themeLoop_lookup_spec (parts : list string) :
  forall (current : gmap string any) (i n : nat),
    n = i + length parts ->
    themeLoop n i parts current = lookup_spec current parts.
Proof.
  induction parts as [|part rest IH]; intros current i n Hn; [reflexivity|].
  destruct rest as [|r rs].
  - simpl in *. replace (i =? n - 1)%nat with true
      by (symmetry; apply Nat.eqb_eq; lia).
    reflexivity.
  - cbn [themeLoop]. replace (i =? n - 1)%nat with false
      by (symmetry; apply Nat.eqb_neq; simpl in Hn; lia).
    change (lookup_spec current (part :: r :: rs))
      with (match descend current (part :: removelast (r :: rs)) with
            | Some m => index m (List.last (r :: rs) "")
            | None => Nil
            end).
    cbn [descend]. unfold index at 1.
    destruct (current !! part) as [[| | |next]|]; cbv beta iota;
      try reflexivity.
    apply (IH next (S i) n). simpl in *. lia.
Qed.

(** C6.  [GetThemeValue] splits the path at the dots, walks the nested
    maps along all segments but the last and returns what the last map
    holds at the last segment; it returns nil for the empty path and when
    a segment on the way is missing or is no map.  On [{a: {b: "v"}}]:
    ["a.b"] gives ["v"], ["a.c"] and ["x.y"] give nil. *)
Theorem GetThemeValue_lookup (theme : gmap string any) (path : string) :
  GetThemeValue theme path
  = (if String.eqb path "" then Nil
     else lookup_spec theme (Strings.Split path "."))
  /\ GetThemeValue theme "" = Nil
  /\ (descend theme (removelast (Strings.Split path ".")) = None ->
      GetThemeValue theme path = Nil)
  /\ GetThemeValue theme_example "a.b" = Str "v"
  /\ GetThemeValue theme_example "a.c" = Nil
  /\ GetThemeValue theme_example "x.y" = Nil.
Proof.
  assert (Hspec : GetThemeValue theme path
            = if String.eqb path "" then Nil
              else lookup_spec theme (Strings.Split path ".")).
  { unfold GetThemeValue. destruct (String.eqb path ""); [reflexivity|].
    now apply themeLoop_lookup_spec. }
  split; [exact Hspec|]. split; [reflexivity|]. split.
  - intros Hnone. rewrite Hspec. destruct (String.eqb path ""); [reflexivity|].
    unfold lookup_spec. rewrite Hnone. now destruct (Strings.Split path ".").
  - repeat split; vm_compute; reflexivity.
Qed.

Lemma GetThemeValue_lookup_witness :
  GetThemeValue theme_example "a.b.c" = Nil.
Proof.
  destruct (GetThemeValue_lookup theme_example "a.b.c") as (_ & _ & Hnone & _).
  apply Hnone. vm_compute. reflexivity.
Defined.

(** ** The walk as a list of visits *)

Module FsFacts.
Import Fs.

Section Visit.
Context {St : Type} (fn : WalkDirFunc (St := St)).

Lemma visit_app (l1 l2 : list (string * bool)) (st : St) :
  visit fn (l1 ++ l2)%list st
  = match visit fn l1 st with
    | (st1, Some err) => (st1, Some err)
    | (st1, None) => visit fn l2 st1
    end.
Proof.
  revert st. induction l1 as [|[p isDir] l1 IH]; intros st; simpl; [reflexivity|].
  destruct (fn p isDir None st) as [st1 [err|]]; [reflexivity | apply IH].
Qed.

Lemma walkDir_visit : forall (d : node) (name : string) (st : St),
  walkDir fn name d st = visit fn (visits name d) st.
Proof.
  fix IH 1. intros [content|entries] name st.
  - simpl. now destruct (fn name false None st) as [st1 [err|]].
  - cbn [walkDir visits visit IsDir].
    destruct (fn name true None st) as [st1 [err|]]; [reflexivity|].
    clear st. revert st1.
    induction entries as [|[n1 d1] rest IHrest]; intros st; [reflexivity|].
    rewrite visit_app, <- IH.
    destruct (walkDir fn (Path.Join [name; n1]) d1 st) as [st2 [err|]];
      [reflexivity | apply IHrest].
Qed.

End Visit.
End FsFacts.

(** ** What a rebuild loads *)

Section Loading.
Context `{Engine}.

Lemma AddParseTrees_app (t : gmap string tree) (a b : list (string * tree)) :
  Template.AddParseTrees t (a ++ b)
  = Template.AddParseTrees (Template.AddParseTrees t a) b.
Proof. unfold Template.AddParseTrees. apply foldl_app. Qed.

Lemma loads_nil (m : Manager) : loads (fun _ => []) m (m, None).
Proof. repeat split. intros f. exists []. now repeat split. Qed.

Lemma loads_ext (F G : TemplateFormat -> list (string * tree)) m out :
  (forall f, F f = G f) -> loads F m out -> loads G m out.
Proof.
  intros Heq (Hs & Hc & Hp & Hd & Hb). repeat split; try assumption.
  intros f. destruct (Hb f) as (ds & Hpre & Hall & Hbase).
  exists ds. now rewrite <- Heq.
Qed.

Lemma loads_seq (F1 F2 : TemplateFormat -> list (string * tree)) m m1 out :
  loads F1 m (m1, None) -> loads F2 m1 out ->
  loads (fun f => F1 f ++ F2 f) m out.
Proof.
  intros (Hs1 & Hc1 & Hp1 & Hd1 & Hb1) (Hs2 & Hc2 & Hp2 & Hd2 & Hb2).
  simpl in *. repeat split; try congruence.
  intros f. destruct (Hb1 f) as (ds1 & _ & Hall1 & Hbase1).
  destruct (Hb2 f) as (ds2 & Hpre2 & Hall2 & Hbase2).
  rewrite (Hall1 eq_refl) in Hbase1.
  exists (F1 f ++ ds2). split; [now apply prefix_app|].
  split; [intros Hnone; now rewrite (Hall2 Hnone)|].
  now rewrite AddParseTrees_app, <- Hbase1.
Qed.

Lemma loads_fail (F1 F2 : TemplateFormat -> list (string * tree)) m m1 e e' :
  loads F1 m (m1, Some e) -> loads (fun f => F1 f ++ F2 f) m (m1, Some e').
Proof.
  intros (Hs1 & Hc1 & Hp1 & Hd1 & Hb1). simpl in *. repeat split; try assumption.
  intros f. destruct (Hb1 f) as (ds1 & Hpre1 & _ & Hbase1).
  exists ds1. split; [now apply prefix_app_r|]. split; [discriminate | assumption].
Qed.

Lemma loads_wrap (F : TemplateFormat -> list (string * tree)) m m1 e e' :
  loads F m (m1, Some e) -> loads F m (m1, Some e').
Proof.
  intros (Hs1 & Hc1 & Hp1 & Hd1 & Hb1). simpl in *. repeat split; try assumption.
  intros f. destruct (Hb1 f) as (ds1 & Hpre1 & _ & Hbase1).
  exists ds1. split; [assumption|]. split; [discriminate | assumption].
Qed.

Lemma baseTemplates_set (m : Manager) (f g : TemplateFormat) (t : gmap string tree) :
  baseTemplates (set_baseTemplates m f t) g
  = if decide (f = g) then t else baseTemplates m g.
Proof. now destruct f, g. Qed.

Lemma AddParseTrees_nil (t : gmap string tree) : Template.AddParseTrees t [] = t.
Proof. reflexivity. Qed.

(** One call of the callback on an entry of the walk. *)
Lemma loads_loadFile (source : TemplateSource) (rootDir p : string)
  (isDir : bool) (m : Manager) :
  loads (fun f => file_trees source rootDir f (p, isDir)) m
        (loadFile source rootDir p isDir None m).
Proof.
  unfold loadFile, file_trees. cbn [fst snd].
  destruct isDir; [apply loads_nil|].
  destruct (formatFromFile p) as [format|]; [|apply loads_nil].
  destruct (Fs.ReadFile (FS source) p) as [content|e].
  2:{ repeat split. intros f. exists []. split; [apply prefix_nil|].
      split; [discriminate | reflexivity]. }
  unfold Template.NewParse.
  destruct (parse (templateName rootDir p) content) as [trees|msg].
  2:{ repeat split. intros f. exists []. split; [apply prefix_nil|].
      split; [discriminate | reflexivity]. }
  split; [now destruct format|]. split; [now destruct format|].
  split; [now destruct format|]. split; [now destruct format|].
  intros f. cbn [fst snd]. rewrite baseTemplates_set.
  destruct (decide (format = f)) as [->|Hne].
  - exists trees. now repeat split.
  - exists []. now repeat split.
Qed.

Lemma loads_visit (source : TemplateSource) (rootDir : string)
  (l : list (string * bool)) : forall m,
  loads (fun f => flat_map (file_trees source rootDir f) l) m
        (Fs.visit (loadFile source rootDir) l m).
Proof.
  induction l as [|[p isDir] l IH]; intros m; [apply loads_nil|].
  cbn [Fs.visit flat_map].
  pose proof (loads_loadFile source rootDir p isDir m) as Hstep.
  destruct (loadFile source rootDir p isDir None m) as [m1 [e|]].
  - now apply loads_fail with (e := e).
  - now apply loads_seq with (m1 := m1).
Qed.

Lemma loads_loadDirectory (m : Manager) (source : TemplateSource)
  (rootDir : string) :
  loads (dir_trees source rootDir) m (loadDirectory m source rootDir).
Proof.
  unfold loadDirectory, Fs.WalkDir, dir_trees.
  destruct (Fs.Stat (FS source) rootDir) as [d|e].
  - rewrite FsFacts.walkDir_visit. apply loads_visit.
  - unfold loadFile. destruct e; try apply loads_nil;
      (repeat split; intros f; exists []; split; [apply prefix_nil|];
       split; [discriminate | reflexivity]).
Qed.

Lemma loads_loadSource (m : Manager) (source : TemplateSource) :
  loads (source_trees source) m (loadSource m source).
Proof.
  unfold loadSource, source_trees.
  pose proof (loads_loadDirectory m source LayoutsDir) as H1.
  destruct (loadDirectory m source LayoutsDir) as [m1 [e|]].
  { now apply loads_fail with (e := e). }
  apply loads_seq with (m1 := m1); [assumption|].
  pose proof (loads_loadDirectory m1 source ComponentsDir) as H2.
  destruct (loadDirectory m1 source ComponentsDir) as [m2 [e|]].
  { now apply loads_fail with (e := e). }
  apply loads_seq with (m1 := m2); [assumption|].
  pose proof (loads_loadDirectory m2 source PartialsDir) as H3.
  destruct (loadDirectory m2 source PartialsDir) as [m3 [e|]];
    [now apply loads_wrap with (e := e) | assumption].
Qed.

Lemma loads_loadSources (l : list TemplateSource) : forall m,
  loads (all_trees l) m (loadSources m l).
Proof.
  induction l as [|source l IH]; intros m; [apply loads_nil|].
  cbn [loadSources]. unfold all_trees. cbn [flat_map].
  pose proof (loads_loadSource m source) as Hstep.
  destruct (loadSource m source) as [m1 [e|]].
  - now apply loads_fail with (e := e).
  - apply loads_seq with (m1 := m1); [assumption | apply IH].
Qed.

(** [loadBaseTemplates] rebuilds both sets from empty ones along the load
    sequence, and stops at the first failure. *)
Lemma loadBaseTemplates_loads (m : Manager) :
  let out := loadBaseTemplates m in
  sources out.1 = sources m /\ emailCache out.1 = emailCache m
  /\ processor out.1 = processor m /\ defaultLayout out.1 = defaultLayout m
  /\ forall f, exists ds,
       ds `prefix_of` all_trees (sources m) f
       /\ (out.2 = None -> ds = all_trees (sources m) f)
       /\ baseTemplates out.1 f = Template.AddParseTrees ∅ ds.
Proof.
  unfold loadBaseTemplates.
  set (m0 := set_baseTemplates (set_baseTemplates m FormatText _) FormatHTML _).
  destruct (loads_loadSources (sources m0) m0) as (Hs & Hc & Hp & Hd & Hb).
  cbn zeta. repeat split; try assumption.
  intros f. destruct (Hb f) as (ds & Hpre & Hall & Hbase).
  exists ds. repeat split; try assumption.
  rewrite Hbase. now destruct f.
Qed.

End Loading.

(** ** C1: override precedence *)

Section Precedence.
Context `{Engine}.

Lemma AddParseTree_lookup_ne (t : gmap string tree) (name id : string) (tr : tree) :
  name <> id -> Template.AddParseTree t name tr !! id = t !! id.
Proof.
  intros Hne. unfold Template.AddParseTree.
  destruct (t !! name); [destruct (IsEmptyTree tr)|];
    try reflexivity; now apply lookup_insert_ne.
Qed.

Lemma AddParseTree_lookup_nonempty (t : gmap string tree) (id : string) (tr : tree) :
  IsEmptyTree tr = false -> Template.AddParseTree t id tr !! id = Some tr.
Proof.
  intros Hne. unfold Template.AddParseTree. rewrite Hne.
  destruct (t !! id); apply lookup_insert_eq.
Qed.

Lemma AddParseTree_lookup_fresh (t : gmap string tree) (id : string) (tr : tree) :
  t !! id = None -> Template.AddParseTree t id tr !! id = Some tr.
Proof.
  intros Hnone. unfold Template.AddParseTree. rewrite Hnone.
  apply lookup_insert_eq.
Qed.

Lemma AddParseTree_lookup_empty (t : gmap string tree) (id : string) (old tr : tree) :
  t !! id = Some old -> IsEmptyTree tr = true ->
  Template.AddParseTree t id tr !! id = Some old.
Proof.
  intros Hold Hempty. unfold Template.AddParseTree. now rewrite Hold, Hempty.
Qed.

(** Later definitions with an empty body leave a template as it is. *)
Lemma AddParseTrees_keep (ds : list (string * tree)) (id : string) (tr : tree) :
  (forall tr', (id, tr') ∈ ds -> IsEmptyTree tr' = true) ->
  forall t : gmap string tree,
    t !! id = Some tr -> Template.AddParseTrees t ds !! id = Some tr.
Proof.
  induction ds as [|[name tr'] ds IH]; intros Hempty t Ht; [exact Ht|].
  change (Template.AddParseTrees (Template.AddParseTree t name tr') ds !! id
          = Some tr).
  apply IH.
  - intros tr'' Hin. apply Hempty. now right.
  - destruct (decide (name = id)) as [->|Hne].
    + apply AddParseTree_lookup_empty; [assumption|]. apply Hempty. now left.
    + now rewrite AddParseTree_lookup_ne.
Qed.

(** The template registered under [id] is the last definition of [id] in
    the sequence that has a body. *)
Lemma AddParseTrees_last_nonempty (t : gmap string tree)
  (ds1 ds2 : list (string * tree)) (id : string) (tr : tree) :
  IsEmptyTree tr = false ->
  (forall tr', (id, tr') ∈ ds2 -> IsEmptyTree tr' = true) ->
  Template.AddParseTrees t (ds1 ++ (id, tr) :: ds2) !! id = Some tr.
Proof.
  intros Hne Hempty. rewrite AddParseTrees_app.
  change (Template.AddParseTrees
            (Template.AddParseTree (Template.AddParseTrees t ds1) id tr) ds2 !! id
          = Some tr).
  apply AddParseTrees_keep; [assumption|].
  now apply AddParseTree_lookup_nonempty.
Qed.

Lemma AddParseTrees_undefined (ds : list (string * tree)) (id : string) :
  id ∉ ds.*1 -> forall t : gmap string tree,
    Template.AddParseTrees t ds !! id = t !! id.
Proof.
  induction ds as [|[name tr'] ds IH]; intros Hnot t; [reflexivity|].
  change (Template.AddParseTrees (Template.AddParseTree t name tr') ds !! id
          = t !! id).
  rewrite fmap_cons, not_elem_of_cons in Hnot. destruct Hnot as [Hne Hnot].
  rewrite IH by assumption. apply AddParseTree_lookup_ne. simpl in Hne. congruence.
Qed.

(** Whether a file loads does not depend on the sets it is loaded into. *)
Lemma loadFile_error_indep (source : TemplateSource) (rootDir p : string)
  (isDir : bool) (e : option fs_error) (m m' : Manager) :
  (loadFile source rootDir p isDir e m).2 = (loadFile source rootDir p isDir e m').2.
Proof.
  unfold loadFile. destruct e as [[]|]; try reflexivity.
  destruct isDir; [reflexivity|].
  destruct (formatFromFile p); [|reflexivity].
  destruct (Fs.ReadFile (FS source) p); [|reflexivity].
  unfold Template.NewParse. now destruct (parse _ _).
Qed.

Lemma visit_error_indep (source : TemplateSource) (rootDir : string)
  (l : list (string * bool)) : forall m m',
  (Fs.visit (loadFile source rootDir) l m).2
  = (Fs.visit (loadFile source rootDir) l m').2.
Proof.
  induction l as [|[p isDir] l IH]; intros m m'; [reflexivity|].
  cbn [Fs.visit].
  pose proof (loadFile_error_indep source rootDir p isDir None m m') as Hstep.
  destruct (loadFile source rootDir p isDir None m) as [m1 [e|]],
           (loadFile source rootDir p isDir None m') as [m1' [e'|]];
    simpl in Hstep; try discriminate; [assumption | apply IH].
Qed.

Lemma loadDirectory_error_indep (source : TemplateSource) (rootDir : string)
  (m m' : Manager) :
  (loadDirectory m source rootDir).2 = (loadDirectory m' source rootDir).2.
Proof.
  unfold loadDirectory, Fs.WalkDir. destruct (Fs.Stat (FS source) rootDir).
  - rewrite !FsFacts.walkDir_visit. apply visit_error_indep.
  - apply loadFile_error_indep.
Qed.

Lemma loadSource_error_indep (source : TemplateSource) (m m' : Manager) :
  (loadSource m source).2 = (loadSource m' source).2.
Proof.
  unfold loadSource.
  pose proof (loadDirectory_error_indep source LayoutsDir m m') as H1.
  destruct (loadDirectory m source LayoutsDir) as [m1 [e1|]],
           (loadDirectory m' source LayoutsDir) as [m1' [e1'|]];
    simpl in H1; try discriminate; [simpl; congruence|].
  pose proof (loadDirectory_error_indep source ComponentsDir m1 m1') as H2.
  destruct (loadDirectory m1 source ComponentsDir) as [m2 [e2|]],
           (loadDirectory m1' source ComponentsDir) as [m2' [e2'|]];
    simpl in H2; try discriminate; [simpl; congruence|].
  pose proof (loadDirectory_error_indep source PartialsDir m2 m2') as H3.
  destruct (loadDirectory m2 source PartialsDir) as [m3 [e3|]],
           (loadDirectory m2' source PartialsDir) as [m3' [e3'|]];
    simpl in H3; try discriminate; [simpl; congruence | reflexivity].
Qed.

(** A list of sources loads when each of its members loads: what one
    source defines is never an error for the next. *)
Lemma loadSources_succeeds (l : list TemplateSource) (m0 : Manager) :
  (forall s, s ∈ l -> (loadSource m0 s).2 = None) ->
  forall m, (loadSources m l).2 = None.
Proof.
  induction l as [|source l IH]; intros Hall m; [reflexivity|].
  cbn [loadSources].
  pose proof (loadSource_error_indep source m m0) as Hstep.
  rewrite (Hall source) in Hstep by now left.
  destruct (loadSource m source) as [m1 [e|]]; [discriminate|].
  apply IH. intros s Hs. apply Hall. now right.
Qed.

End Precedence.

Lemma elem_of_all_trees `{Engine} (l : list TemplateSource) (f : TemplateFormat)
  (d : string * tree) :
  d ∈ all_trees l f -> exists s, s ∈ l /\ d ∈ source_trees s f.
Proof.
  unfold all_trees. rewrite list_elem_of_In, in_flat_map.
  intros (s & Hs & Hd). exists s. now rewrite !list_elem_of_In.
Qed.

Lemma all_trees_app `{Engine} (l1 l2 : list TemplateSource) (f : TemplateFormat) :
  all_trees (l1 ++ l2) f = all_trees l1 f ++ all_trees l2 f.
Proof. unfold all_trees. apply flat_map_app. Qed.

(** C1, as the code has it.  When every source loads, the rebuild
    succeeds whatever the sources re-declare, and the template registered
    under an identifier is the last definition of it, in load order, whose
    body is not empty: a later source that defines the identifier with a
    body replaces the earlier definition, a later definition whose body is
    empty does not. *)
Theorem override_precedence `{Engine} (m : Manager)
  (l1 : list TemplateSource) (s : TemplateSource) (l2 : list TemplateSource)
  (f : TemplateFormat) (id : string) (tr : tree) (d1 d2 : list (string * tree)) :
  sources m = l1 ++ s :: l2 ->
  (forall s', s' ∈ sources m -> (loadSource m s').2 = None) ->
  source_trees s f = d1 ++ (id, tr) :: d2 ->
  IsEmptyTree tr = false ->
  (forall tr', (id, tr') ∈ d2 -> IsEmptyTree tr' = true) ->
  (forall s' tr', s' ∈ l2 -> (id, tr') ∈ source_trees s' f ->
     IsEmptyTree tr' = true) ->
  (loadBaseTemplates m).2 = None
  /\ baseTemplates (loadBaseTemplates m).1 f !! id = Some tr.
Proof.
  intros Hsrc Hload Hs Hbody Hd2 Hl2.
  assert (Hok : (loadBaseTemplates m).2 = None).
  { unfold loadBaseTemplates. now apply loadSources_succeeds with (m0 := m). }
  split; [exact Hok|].
  destruct (loadBaseTemplates_loads m) as (_ & _ & _ & _ & Hb).
  destruct (Hb f) as (ds & _ & Hall & ->). rewrite (Hall Hok), Hsrc.
  rewrite all_trees_app. unfold all_trees at 2. cbn [flat_map]. rewrite Hs.
  fold (all_trees l2 f).
  replace (all_trees l1 f ++ (d1 ++ (id, tr) :: d2) ++ all_trees l2 f)
    with ((all_trees l1 f ++ d1) ++ (id, tr) :: (d2 ++ all_trees l2 f))
    by (now rewrite <- !app_assoc).
  apply AddParseTrees_last_nonempty; [assumption|].
  intros tr' [Hin|Hin]%elem_of_app; [now apply Hd2|].
  destruct (elem_of_all_trees _ _ _ Hin) as (s' & Hs' & Hd). now apply (Hl2 s').
Qed.

Lemma override_precedence_witness :
  let m := set_sources blank_manager [component_x "A" "first"; component_x "B" "second"] in
  (loadBaseTemplates m).2 = None
  /\ baseHTML (loadBaseTemplates m).1 !! "component:x" = Some "second".
Proof.
  intros m.
  apply (override_precedence (H := literal_engine) m
           [component_x "A" "first"] (component_x "B" "second") []
           FormatHTML "component:x" "second" [] []).
  - reflexivity.
  - intros s' Hs'. apply list_elem_of_In in Hs'.
    destruct Hs' as [<-|[<-|[]]]; vm_compute; reflexivity.
  - vm_compute. reflexivity.
  - reflexivity.
  - intros tr' Hin. inversion Hin.
  - intros s' tr' Hin. inversion Hin.
Defined.

(** The literal rule fails on a re-declaration with a blank body: [A] and
    then [B] both declare [component:x], [B] with a body of one space, and
    the set keeps the definition of [A]. *)
Lemma override_blank_counterexample : ~ last_declaration_wins.
Proof.
  intros Hclaim.
  destruct (Hclaim literal_engine
              (set_sources blank_manager
                 [component_x "A" "first"; component_x "B" " "])
              [component_x "A" "first"] (component_x "B" " ") []
              FormatHTML "component:x") as (tr & Hin & Hreg).
  - reflexivity.
  - vm_compute. reflexivity.
  - vm_compute. apply list_elem_of_here.
  - intros s' Hs'. inversion Hs'.
  - vm_compute in Hin. apply list_elem_of_singleton in Hin.
    vm_compute in Hreg. congruence.
Qed.

(** ** C2: document resolution *)

Section Resolution.
Context `{Engine}.

Lemma getEmailTemplate_unfold (m : Manager) (name layout : string)
  (format : TemplateFormat) :
  getEmailTemplate m name layout format
  = match emailCache m !! cacheKey name layout format with
    | Some tmpl => (m, Ok tmpl)
    | None =>
        match resolveEmail m name format with
        | Ok tmpl =>
            (set_emailCache m
               (<[cacheKey name layout format := tmpl]> (emailCache m)), Ok tmpl)
        | Err e => (m, Err e)
        end
    end.
Proof.
  unfold getEmailTemplate, resolveEmail, emailFile, Template.Clone.
  destruct (emailCache m !! cacheKey name layout format); [reflexivity|].
  now destruct (findEmail _ _ _ _) as [[t|]|e].
Qed.

Lemma elem_of_rev {A : Type} (x : A) (l : list A) : x ∈ rev l <-> x ∈ l.
Proof. rewrite !list_elem_of_In. symmetry. apply in_rev. Qed.

Lemma find_skip {A : Type} (p : A -> bool) (l rest : list A) :
  (forall x, x ∈ l -> p x = false) -> List.find p (l ++ rest) = List.find p rest.
Proof.
  induction l as [|x l IH]; intros Hnone; [reflexivity|]. cbn [app List.find].
  rewrite (Hnone x) by now left. apply IH. intros y Hy. apply Hnone. now right.
Qed.

Lemma findEmail_skip (l rest : list TemplateSource) (filename name : string)
  (tmpl : gmap string tree) :
  (forall s, s ∈ l -> hasEmail filename s = false) ->
  findEmail (l ++ rest) filename name tmpl = findEmail rest filename name tmpl.
Proof.
  induction l as [|s l IH]; intros Hnone; [reflexivity|].
  cbn [app findEmail].
  pose proof (Hnone s ltac:(now left)) as Hs. unfold hasEmail in Hs.
  destruct (Fs.ReadFile (FS s) filename); [discriminate|].
  apply IH. intros s' Hs'. apply Hnone. now right.
Qed.

(** The loop is a search for the first source, from the last one back,
    that has the file. *)
Lemma findEmail_find (l : list TemplateSource) (filename name : string)
  (tmpl : gmap string tree) :
  findEmail l filename name tmpl
  = match List.find (hasEmail filename) l with
    | None => Ok None
    | Some s =>
        match Fs.ReadFile (FS s) filename with
        | Ok content =>
            match Template.NewParse tmpl name content with
            | Err e => Err e
            | Ok t => Ok (Some t)
            end
        | Err _ => Ok None
        end
    end.
Proof.
  induction l as [|s l IH]; [reflexivity|]. cbn [findEmail List.find].
  unfold hasEmail at 1.
  destruct (Fs.ReadFile (FS s) filename) as [content|e] eqn:Hread; cbn [is_ok].
  - now rewrite Hread.
  - exact IH.
Qed.

Lemma resolveEmail_last (m : Manager) (name : string) (format : TemplateFormat)
  (l1 : list TemplateSource) (s : TemplateSource) (l2 : list TemplateSource)
  (content : string) :
  sources m = l1 ++ s :: l2 ->
  Fs.ReadFile (FS s) (emailFile name format) = Ok content ->
  (forall s', s' ∈ l2 -> hasEmail (emailFile name format) s' = false) ->
  resolveEmail m name format
  = Template.NewParse (baseTemplates m format) name content.
Proof.
  intros Hsrc Hread Hl2. unfold resolveEmail.
  rewrite Hsrc, rev_app_distr. cbn [rev]. rewrite <- app_assoc.
  rewrite findEmail_skip.
  - cbn [app findEmail]. rewrite Hread.
    now destruct (Template.NewParse _ _ _).
  - intros s' Hs'. apply Hl2. exact (proj1 (elem_of_rev s' l2) Hs').
Qed.

Lemma resolveEmail_absent (m : Manager) (name : string) (format : TemplateFormat) :
  (forall s, s ∈ sources m -> hasEmail (emailFile name format) s = false) ->
  resolveEmail m name format = Err (TemplateNotFound (emailFile name format)).
Proof.
  intros Hnone. unfold resolveEmail.
  rewrite <- (app_nil_r (rev (sources m))), findEmail_skip; [reflexivity|].
  intros s Hs. apply Hnone. exact (proj1 (elem_of_rev s (sources m)) Hs).
Qed.

(** A miss that finds the document in [s], the last source that has it. *)
Lemma getEmailTemplate_found (m : Manager) (name layout : string)
  (format : TemplateFormat) (l1 : list TemplateSource) (s : TemplateSource)
  (l2 : list TemplateSource) (content : string) :
  emailCache m !! cacheKey name layout format = None ->
  sources m = l1 ++ s :: l2 ->
  Fs.ReadFile (FS s) (emailFile name format) = Ok content ->
  (forall s', s' ∈ l2 -> hasEmail (emailFile name format) s' = false) ->
  getEmailTemplate m name layout format
  = match Template.NewParse (baseTemplates m format) name content with
    | Ok tmpl =>
        (set_emailCache m
           (<[cacheKey name layout format := tmpl]> (emailCache m)), Ok tmpl)
    | Err e => (m, Err e)
    end.
Proof.
  intros Hmiss Hsrc Hread Hl2. rewrite getEmailTemplate_unfold, Hmiss.
  now rewrite (resolveEmail_last m name format l1 s l2 content).
Qed.

End Resolution.

(** C2.  On a cache miss the resolver takes the base set of the format as
    it is (a clone: the base set itself stays untouched), goes through the
    sources from the last one registered to the first for the file
    [emails/<name><ext>], parses the content of the first source that has
    it into the clone under the bare name, stores the result under the cache
    key and returns it.  The sources registered before that one play no
    part. *)
Theorem getEmailTemplate_miss `{Engine} (m : Manager) (name layout : string)
  (format : TemplateFormat) (l1 : list TemplateSource) (s : TemplateSource)
  (l2 : list TemplateSource) (content : string) :
  emailCache m !! cacheKey name layout format = None ->
  sources m = l1 ++ s :: l2 ->
  Fs.ReadFile (FS s) (Path.Join [EmailsDir; name +:+ Extension format])
    = Ok content ->
  (forall s', s' ∈ l2 ->
     is_ok (Fs.ReadFile (FS s') (Path.Join [EmailsDir; name +:+ Extension format]))
       = false) ->
  getEmailTemplate m name layout format
  = match Template.NewParse (baseTemplates m format) name content with
    | Ok tmpl =>
        (set_emailCache m
           (<[cacheKey name layout format := tmpl]> (emailCache m)), Ok tmpl)
    | Err e => (m, Err e)
    end
  /\ (forall f, baseTemplates (getEmailTemplate m name layout format).1 f
                = baseTemplates m f)
  /\ List.find (hasEmail (emailFile name format)) (rev (sources m)) = Some s.
Proof.
  intros Hmiss Hsrc Hread Hl2.
  assert (Hget : getEmailTemplate m name layout format
            = match Template.NewParse (baseTemplates m format) name content with
              | Ok tmpl =>
                  (set_emailCache m
                     (<[cacheKey name layout format := tmpl]> (emailCache m)),
                   Ok tmpl)
              | Err e => (m, Err e)
              end).
  { rewrite getEmailTemplate_unfold, Hmiss.
    now rewrite (resolveEmail_last m name format l1 s l2 content). }
  split; [exact Hget|]. split.
  - intros f. rewrite Hget.
    destruct (Template.NewParse _ _ _); [now destruct f | reflexivity].
  - rewrite Hsrc, rev_app_distr. cbn [rev]. rewrite <- app_assoc.
    rewrite find_skip.
    + cbn. unfold hasEmail, emailFile. now rewrite Hread.
    + intros s' Hs'. apply Hl2. exact (proj1 (elem_of_rev s' l2) Hs').
Qed.

Lemma getEmailTemplate_miss_witness :
  (getEmailTemplate base_and_override "welcome" "base" FormatHTML).2
  = Ok {[ "welcome" := "Hi" ]}.
Proof.
  destruct (getEmailTemplate_miss (H := literal_engine) base_and_override
              "welcome" "base" FormatHTML
              [email_source "base" "welcome.html" "Hello"]
              (email_source "override" "welcome.html" "Hi") [] "Hi")
    as (Hget & _).
  - reflexivity.
  - reflexivity.
  - vm_compute. reflexivity.
  - intros s' Hs'. inversion Hs'.
  - rewrite Hget. vm_compute. reflexivity.
Defined.

(** ** C3: the cache *)

Section Cache.
Context `{Engine}.

Lemma AddSource_fields (m : Manager) (source : TemplateSource) :
  sources (AddSource m source).1 = sources m ++ [source]
  /\ emailCache (AddSource m source).1 = ∅
  /\ processor (AddSource m source).1 = processor m
  /\ defaultLayout (AddSource m source).1 = defaultLayout m.
Proof.
  unfold AddSource.
  set (m0 := set_emailCache (set_sources m (sources m ++ [source])) ∅).
  destruct (loadBaseTemplates_loads m0) as (Hs & Hc & Hp & Hd & _).
  cbn zeta in *. now rewrite Hs, Hc, Hp, Hd.
Qed.



Lemma resolveEmail_same (m m' : Manager) (name : string) (format : TemplateFormat) :
  sources m' = sources m -> baseTemplates m' format = baseTemplates m format ->
  resolveEmail m' name format = resolveEmail m name format.
Proof. unfold resolveEmail. now intros -> ->. Qed.

Lemma getEmailTemplate_fields (m : Manager) (name layout : string)
  (format : TemplateFormat) :
  let out := getEmailTemplate m name layout format in
  sources out.1 = sources m /\ processor out.1 = processor m
  /\ defaultLayout out.1 = defaultLayout m
  /\ (forall f, baseTemplates out.1 f = baseTemplates m f)
  /\ (forall key, key <> cacheKey name layout format ->
        emailCache out.1 !! key = emailCache m !! key).
Proof.
  cbn zeta. rewrite getEmailTemplate_unfold.
  destruct (emailCache m !! cacheKey name layout format); [now repeat split|].
  destruct (resolveEmail m name format); [|now repeat split].
  repeat split; try (now destruct f).
  intros key Hkey. cbn. now apply lookup_insert_ne.
Qed.


Lemma renderHTML_state (m : Manager) (name : string) (d : data)
  (layout text : string) :
  (renderHTML m name d layout text).1
  = (getEmailTemplate m name layout FormatHTML).1.
Proof.
  unfold renderHTML.
  destruct (getEmailTemplate m name layout FormatHTML) as [m1 [tmpl|e]].
  - destruct (executeTemplate tmpl "layout" d) as [html|err]; [|reflexivity].
    destruct (processor m1) as [process|].
    + destruct (process html) as [html'|err]; [|reflexivity].
      now destruct (String.eqb text "" && String.eqb html' "").
    + now destruct (String.eqb text "" && String.eqb html "").
  - cbn. now destruct (String.eqb text "" && true).
Qed.



End Cache.



(** ** C4: a failing rebuild *)

Lemma loadSources_failure `{Engine} (l : list TemplateSource) (m0 : Manager) :
  forall m, (loadSources m l).2 = None ->
  forall s, s ∈ l -> (loadSource m0 s).2 = None.
Proof.
  induction l as [|source l IH]; intros m Hok s Hs; [inversion Hs|].
  cbn [loadSources] in Hok.
  pose proof (loadSource_error_indep source m m0) as Hstep.
  destruct (loadSource m source) as [m1 [e|]] eqn:Hload; [discriminate|].
  apply elem_of_cons in Hs as [->|Hs]; [now rewrite <- Hstep|].
  now apply (IH m1).
Qed.




(** ** C5: the outcome of a render *)

Lemma getEmailTemplate_error_state `{Engine} (m : Manager) (name layout : string)
  (format : TemplateFormat) (e : error) :
  (getEmailTemplate m name layout format).2 = Err e ->
  getEmailTemplate m name layout format = (m, Err e).
Proof.
  rewrite getEmailTemplate_unfold.
  destruct (emailCache m !! cacheKey name layout format); [discriminate|].
  destruct (resolveEmail m name format); [discriminate|].
  cbn. congruence.
Qed.

(** C5, as the code has it.  When neither format resolves the render
    fails with the one error "no templates found" that carries the name.
    When exactly one format resolves, and executing it (and, for HTML,
    post-processing it) succeeds with a body that is not empty, the render
    succeeds with that body and the other one empty. *)
Theorem RenderEmail_outcome `{Engine} (m : Manager) (name : string) (d : data)
  (layout : string) :
  (forall eT eH,
     (getEmailTemplate m name (layoutOf m layout) FormatText).2 = Err eT ->
     (getEmailTemplate m name (layoutOf m layout) FormatHTML).2 = Err eH ->
     (RenderEmail m name d layout).2 = Err (NoTemplatesFound name))
  /\ (forall m1 tmpl e text,
        getEmailTemplate m name (layoutOf m layout) FormatText = (m1, Ok tmpl) ->
        (getEmailTemplate m1 name (layoutOf m layout) FormatHTML).2 = Err e ->
        executeTemplate tmpl "layout" d = Ok text ->
        text <> "" ->
        (RenderEmail m name d layout).2
        = Ok {| Subject := ""; Text := text; HTML := "" |})
  /\ (forall m1 tmpl e html html',
        (getEmailTemplate m name (layoutOf m layout) FormatText).2 = Err e ->
        getEmailTemplate m name (layoutOf m layout) FormatHTML = (m1, Ok tmpl) ->
        executeTemplate tmpl "layout" d = Ok html ->
        processHTML m1 html = Ok html' ->
        html' <> "" ->
        (RenderEmail m name d layout).2
        = Ok {| Subject := ""; Text := ""; HTML := html' |}).
Proof.
  unfold RenderEmail, layoutOf.
  set (l := if String.eqb layout "" then defaultLayout m else layout).
  split; [|split].
  - intros eT eH HT HH.
    rewrite (getEmailTemplate_error_state _ _ _ _ _ HT). unfold renderHTML.
    now rewrite (getEmailTemplate_error_state _ _ _ _ _ HH).
  - intros m1 tmpl e text HT HH Hexec Htext. rewrite HT, Hexec.
    unfold renderHTML. rewrite (getEmailTemplate_error_state _ _ _ _ _ HH).
    apply String.eqb_neq in Htext. now rewrite Htext.
  - intros m1 tmpl e html html' HT HH Hexec Hproc Hhtml.
    rewrite (getEmailTemplate_error_state _ _ _ _ _ HT). unfold renderHTML.
    rewrite HH, Hexec. unfold processHTML in Hproc.
    apply String.eqb_neq in Hhtml.
    destruct (processor m1) as [process|].
    + rewrite Hproc. cbn. now rewrite Hhtml.
    + injection Hproc as ->. cbn. now rewrite Hhtml.
Qed.

Lemma result_eta {E A} (r : result E A) (d : A) :
  is_ok r = true -> r = Ok (get_ok r d).
Proof. now destruct r. Qed.

Lemma step_eta {S E A} (x : S * result E A) (d : A) :
  is_ok x.2 = true -> x = (x.1, Ok (get_ok x.2 d)).
Proof. destruct x as [s [a|e]]; [reflexivity | discriminate]. Qed.

Lemma RenderEmail_outcome_witness :
  (RenderEmail text_only "layout" tt "").2
  = Ok {| Subject := ""; Text := "hello"; HTML := "" |}
  /\ (RenderEmail text_only "missing" tt "").2 = Err (NoTemplatesFound "missing").
Proof.
  split.
  - destruct (RenderEmail_outcome (H := literal_engine) text_only "layout" tt "")
      as (_ & Htext & _).
    apply (Htext
             (getEmailTemplate text_only "layout" (layoutOf text_only "")
                FormatText).1
             (get_ok (getEmailTemplate text_only "layout" (layoutOf text_only "")
                        FormatText).2 ∅)
             (TemplateNotFound "emails/layout.html") "hello").
    + apply step_eta. vm_compute. reflexivity.
    + vm_compute. reflexivity.
    + vm_compute. reflexivity.
    + discriminate.
  - destruct (RenderEmail_outcome (H := literal_engine) text_only "missing" tt "")
      as (Hnone & _).
    apply (Hnone (TemplateNotFound "emails/missing.txt")
             (TemplateNotFound "emails/missing.html")); vm_compute; reflexivity.
Defined.

(** [note] resolves as text and not as HTML, and the render fails: the
    set has no template [layout] to execute. *)
Lemma text_only_counterexample : ~ text_only_renders.
Proof.
  intros Hclaim.
  assert (Hok : is_ok (RenderEmail (H := literal_engine) text_without_layout
                         "note" tt "").2 = true).
  { apply (Hclaim literal_engine text_without_layout
             (getEmailTemplate text_without_layout "note"
                (layoutOf text_without_layout "") FormatText).1
             "note" tt ""
             (get_ok (getEmailTemplate text_without_layout "note"
                        (layoutOf text_without_layout "") FormatText).2 ∅)
             (TemplateNotFound "emails/note.html")).
    - apply step_eta. vm_compute. reflexivity.
    - vm_compute. reflexivity. }
  vm_compute in Hok. discriminate.
Qed.

(** ** C7: missing role directories *)

Lemma Split_first (a rest : string) (sep : ascii) :
  lacks sep a = true ->
  Strings.Split (a +:+ String sep rest) sep = a :: Strings.Split rest sep.
Proof.
  induction a as [|c a IH]; intros Ha.
  - change (Strings.Split (String sep rest) sep = "" :: Strings.Split rest sep).
    cbn [Strings.Split]. now rewrite Ascii.eqb_refl.
  - cbn [lacks] in Ha. apply andb_prop in Ha as [Hc Ha].
    apply negb_true_iff in Hc.
    change (Strings.Split (String c (a +:+ String sep rest)) sep
            = String c a :: Strings.Split rest sep).
    cbn [Strings.Split]. now rewrite Hc, IH.
Qed.


Section MissingRoles.
Context `{Engine}.




End MissingRoles.



(** ** C9: the built-in source *)

Section BuiltIn.
Context `{Engine}.

Lemma AddSource_rebuilt (m : Manager) (source : TemplateSource) :
  (AddSource m source).2 = None -> rebuilt (AddSource m source).1.
Proof.
  intros Hok. destruct (AddSource_fields m source) as (Hs & Hc & _).
  split; [exact Hc|]. intros f. unfold AddSource in *.
  set (m0 := set_emailCache (set_sources m (sources m ++ [source])) ∅) in *.
  destruct (loadBaseTemplates_loads m0) as (Hs0 & _ & _ & _ & Hb).
  destruct (Hb f) as (ds & _ & Hall & Hbase). cbn zeta in *.
  now rewrite Hbase, (Hall Hok), Hs0.
Qed.

Lemma addSources_result (l : list TemplateSource) : forall m m',
  addSources m l = Ok m' ->
  sources m' = sources m ++ l /\ (rebuilt m -> rebuilt m').
Proof.
  induction l as [|source l IH]; intros m m' Hadd; cbn [addSources] in Hadd.
  - injection Hadd as <-. now rewrite app_nil_r.
  - destruct (AddSource m source) as [m1 [e|]] eqn:Hstep; [discriminate|].
    destruct (IH m1 m' Hadd) as (Hs & Hr).
    destruct (AddSource_fields m source) as (Hs1 & _).
    rewrite Hstep in Hs1. cbn [fst] in Hs1.
    split; [now rewrite Hs, Hs1, <- app_assoc|].
    intros _. apply Hr.
    pose proof (AddSource_rebuilt m source) as Hre. rewrite Hstep in Hre.
    now apply Hre.
Qed.

Lemma NewManager_result (builtin : Fs.FS) (config : option ManagerConfig)
  (m : Manager) :
  NewManager builtin config = Ok m ->
  sources m = builtinSource builtin :: userSources config /\ rebuilt m.
Proof.
  unfold NewManager, userSources.
  set (c := match config with Some c => c | None => _ end).
  set (m0 := {| processor := _; defaultLayout := _; sources := [];
                baseText := _; baseHTML := _; emailCache := _ |}).
  intros Hnew.
  pose proof (AddSource_rebuilt m0 {| Name := "built-in"; FS := builtin |}) as Hre.
  destruct (AddSource_fields m0 {| Name := "built-in"; FS := builtin |}) as (Hs & _).
  destruct (AddSource m0 _) as [m1 [e|]]; [discriminate|].
  destruct (addSources_result _ _ _ Hnew) as (Hs' & Hr).
  cbn [fst snd] in Hs, Hre.
  split; [|now apply Hr, Hre].
  rewrite Hs', Hs. cbn. now destruct config.
Qed.

End BuiltIn.

(** C9, as the code has it.  A manager that [NewManager] returns has the
    built-in source first and the sources of the configuration after it, in
    their order; its registry is not empty.  A document of a user source is
    resolved in place of the built-in one, and a layout, component or
    partial that a user source defines with a body that is not empty is
    what the base set holds under its identifier. *)
Theorem NewManager_builtin_first `{Engine} (builtin : Fs.FS)
  (config : option ManagerConfig) (m : Manager)
  (Hnew : NewManager builtin config = Ok m) :
  sources m = builtinSource builtin :: userSources config
  /\ sources m <> []
  /\ (forall name layout format l1 s l2 content,
        userSources config = l1 ++ s :: l2 ->
        Fs.ReadFile (FS s) (emailFile name format) = Ok content ->
        (forall s', s' ∈ l2 -> hasEmail (emailFile name format) s' = false) ->
        (getEmailTemplate m name layout format).2
        = Template.NewParse (baseTemplates m format) name content)
  /\ (forall f id tr l1 s l2 d1 d2,
        userSources config = l1 ++ s :: l2 ->
        source_trees s f = d1 ++ (id, tr) :: d2 ->
        IsEmptyTree tr = false ->
        (forall tr', (id, tr') ∈ d2 -> IsEmptyTree tr' = true) ->
        (forall s' tr', s' ∈ l2 -> (id, tr') ∈ source_trees s' f ->
           IsEmptyTree tr' = true) ->
        baseTemplates m f !! id = Some tr).
Proof.
  destruct (NewManager_result builtin config m Hnew) as (Hs & Hcache & Hbase).
  split; [exact Hs|]. split; [now rewrite Hs|]. split.
  - intros name layout format l1 s l2 content Huser Hread Hl2.
    rewrite (getEmailTemplate_found m name layout format
               (builtinSource builtin :: l1) s l2 content).
    + now destruct (Template.NewParse _ _ _).
    + rewrite Hcache. apply lookup_empty.
    + now rewrite Hs, Huser.
    + exact Hread.
    + exact Hl2.
  - intros f id tr l1 s l2 d1 d2 Huser Htrees Hbody Hd2 Hl2.
    rewrite Hbase, Hs, Huser.
    change (builtinSource builtin :: l1 ++ s :: l2)
      with ((builtinSource builtin :: l1) ++ s :: l2).
    rewrite all_trees_app. unfold all_trees at 2. cbn [flat_map].
    rewrite Htrees. fold (all_trees l2 f).
    replace (all_trees (builtinSource builtin :: l1) f
               ++ (d1 ++ (id, tr) :: d2) ++ all_trees l2 f)
      with ((all_trees (builtinSource builtin :: l1) f ++ d1)
              ++ (id, tr) :: (d2 ++ all_trees l2 f))
      by (now rewrite <- !app_assoc).
    apply AddParseTrees_last_nonempty; [assumption|].
    intros tr' [Hin|Hin]%elem_of_app; [now apply Hd2|].
    destruct (elem_of_all_trees _ _ _ Hin) as (s' & Hs' & Hd). now apply (Hl2 s').
Qed.

Lemma NewManager_builtin_first_witness :
  sources (get_ok custom_alert blank_manager)
  = [builtinSource (alert_tree "built-in");
     {| Name := "user"; FS := alert_tree "custom" |}]
  /\ baseTemplates (get_ok custom_alert blank_manager) FormatHTML
       !! "component:alert" = Some "custom".
Proof.
  assert (Hnew : custom_alert = Ok (get_ok custom_alert blank_manager))
    by (apply result_eta; vm_compute; reflexivity).
  destruct (NewManager_builtin_first (H := literal_engine)
              (alert_tree "built-in") (user_config "custom")
              (get_ok custom_alert blank_manager) Hnew)
    as (Hs & _ & _ & Hbase).
  split; [exact Hs|].
  apply (Hbase FormatHTML "component:alert" "custom" []
           {| Name := "user"; FS := alert_tree "custom" |} [] [] []).
  - reflexivity.
  - vm_compute. reflexivity.
  - reflexivity.
  - intros tr' Hin. inversion Hin.
  - intros s' tr' Hin. inversion Hin.
Defined.

(** A user component with a blank body: the manager is built, and the
    base set keeps the built-in component. *)
Lemma user_blank_counterexample : ~ user_definition_overrides.
Proof.
  intros Hclaim.
  assert (Hnew : blank_alert = Ok (get_ok blank_alert blank_manager))
    by (apply result_eta; vm_compute; reflexivity).
  assert (Hkept : baseTemplates (get_ok blank_alert blank_manager) FormatHTML
                    !! "component:alert" = Some "built-in")
    by (vm_compute; reflexivity).
  assert (Huser : source_trees (H := literal_engine)
                    {| Name := "user"; FS := alert_tree " " |} FormatHTML
                  = [("component:alert", " ")]) by (vm_compute; reflexivity).
  assert (Hbuiltin : source_trees (H := literal_engine)
                       (builtinSource (alert_tree "built-in")) FormatHTML
                     = [("component:alert", "built-in")])
    by (vm_compute; reflexivity).
  destruct (Hclaim literal_engine (alert_tree "built-in") (user_config " ")
              (get_ok blank_alert blank_manager)
              [] {| Name := "user"; FS := alert_tree " " |} []
              FormatHTML "component:alert" Hnew) as (tr & Hin & Hreg).
  - reflexivity.
  - rewrite Hbuiltin. apply list_elem_of_here.
  - rewrite Huser. apply list_elem_of_here.
  - intros s' Hs'. inversion Hs'.
  - rewrite Huser in Hin. apply list_elem_of_singleton in Hin.
    pose proof (eq_trans (eq_sym Hreg) Hkept) as Heq. congruence.
Qed.

(** * Further properties of the manager *)

(** X1.  A file name that ends in the extension of a format is a template
    file of that format, and a template file of a format has the extension
    of that format: [Extension] and [formatFromFile] are inverse to each
    other. *)
Theorem formatFromFile_Extension (stem : string) (f : TemplateFormat) :
  formatFromFile (stem +:+ Extension f) = Some f
  /\ (forall p, formatFromFile p = Some f -> Path.Ext p = Extension f).
Proof.
  split.
  - unfold formatFromFile. destruct f.
    + change (stem +:+ Extension FormatText) with (stem +:+ "." +:+ "txt").
      now rewrite Ext_stem_ext.
    + change (stem +:+ Extension FormatHTML) with (stem +:+ "." +:+ "html").
      now rewrite Ext_stem_ext.
  - intros p. unfold formatFromFile.
    destruct (String.eqb_spec (Path.Ext p) ".html") as [->|_].
    + now intros [= <-].
    + destruct (String.eqb_spec (Path.Ext p) ".txt") as [->|_];
        [now intros [= <-] | discriminate].
Qed.

Lemma formatFromFile_Extension_witness :
  Path.Ext "emails/welcome.txt" = Extension FormatText.
Proof.
  apply (formatFromFile_Extension "emails/welcome" FormatText). reflexivity.
Defined.

Section CacheFacts.
Context `{Engine}.

Lemma getEmailTemplate_cached (m m1 : Manager) (name layout : string)
  (format : TemplateFormat) (t : gmap string tree) :
  getEmailTemplate m name layout format = (m1, Ok t) ->
  emailCache m1 !! cacheKey name layout format = Some t.
Proof.
  rewrite getEmailTemplate_unfold.
  destruct (emailCache m !! cacheKey name layout format) as [t'|] eqn:Hc.
  - intros [= <- <-]. exact Hc.
  - destruct (resolveEmail m name format); [|discriminate].
    intros [= <- <-]. cbn. apply lookup_insert_eq.
Qed.

Lemma cacheKey_shift (a b c : string) (f : TemplateFormat) :
  cacheKey (a +:+ ":" +:+ b) c f = cacheKey a (b +:+ ":" +:+ c) f.
Proof. unfold cacheKey. now rewrite !append_assoc. Qed.

Lemma cache_current_same (m m' : Manager) :
  sources m' = sources m ->
  (forall f, baseTemplates m' f = baseTemplates m f) ->
  emailCache m' = emailCache m ->
  cache_current m -> cache_current m'.
Proof.
  intros Hs Hb Hc Hcur key t Hkey. rewrite Hc in Hkey.
  destruct (Hcur key t Hkey) as (n & l & f & -> & Hres).
  exists n, l, f. split; [reflexivity|].
  now rewrite (resolveEmail_same m m').
Qed.

Lemma cache_current_getEmailTemplate (m : Manager) (name layout : string)
  (format : TemplateFormat) :
  cache_current m -> cache_current (getEmailTemplate m name layout format).1.
Proof.
  intros Hcur. rewrite getEmailTemplate_unfold.
  destruct (emailCache m !! cacheKey name layout format); [exact Hcur|].
  destruct (resolveEmail m name format) as [t|e] eqn:Hres; [|exact Hcur].
  intros key t' Hkey. cbn in Hkey.
  destruct (decide (key = cacheKey name layout format)) as [->|Hne].
  - rewrite lookup_insert_eq in Hkey. injection Hkey as <-.
    exists name, layout, format. split; [reflexivity|].
    rewrite <- Hres. apply resolveEmail_same; [reflexivity | now destruct format].
  - rewrite lookup_insert_ne in Hkey by congruence.
    destruct (Hcur key t' Hkey) as (n & l & f & -> & Hres').
    exists n, l, f. split; [reflexivity|].
    rewrite <- Hres'. apply resolveEmail_same; [reflexivity | now destruct f].
Qed.

Lemma getEmailTemplate_grows (m : Manager) (name layout : string)
  (format : TemplateFormat) :
  emailCache m ⊆ emailCache (getEmailTemplate m name layout format).1.
Proof.
  rewrite getEmailTemplate_unfold.
  destruct (emailCache m !! cacheKey name layout format) eqn:Hc; [reflexivity|].
  destruct (resolveEmail m name format); [|reflexivity].
  cbn. now apply insert_subseteq.
Qed.

(** The manager a render leaves is the one its resolves leave. *)
Lemma RenderEmail_state (m : Manager) (name : string) (d : data) (layout : string) :
  let l := layoutOf m layout in
  let m1 := (getEmailTemplate m name l FormatText).1 in
  (RenderEmail m name d layout).1 = m1
  \/ (RenderEmail m name d layout).1 = (getEmailTemplate m1 name l FormatHTML).1.
Proof.
  unfold RenderEmail, layoutOf. cbn zeta.
  set (l := if String.eqb layout "" then defaultLayout m else layout).
  destruct (getEmailTemplate m name l FormatText) as [m1 [tmpl|e]]; cbn [fst].
  - destruct (executeTemplate tmpl "layout" d); [|now left].
    right. apply renderHTML_state.
  - right. apply renderHTML_state.
Qed.

End CacheFacts.

(** X2.  The layout name only selects the cache entry: when neither
    triple is cached, resolving a document for one layout and for another
    gives the same template or the same error. *)
Theorem getEmailTemplate_layout_irrelevant `{Engine} (m : Manager)
  (name layout layout' : string) (format : TemplateFormat) :
  emailCache m !! cacheKey name layout format = None ->
  emailCache m !! cacheKey name layout' format = None ->
  (getEmailTemplate m name layout format).2
  = (getEmailTemplate m name layout' format).2.
Proof.
  intros Hl Hl'. rewrite !getEmailTemplate_unfold, Hl, Hl'.
  now destruct (resolveEmail m name format).
Qed.

Lemma getEmailTemplate_layout_irrelevant_witness :
  (getEmailTemplate base_and_override "welcome" "base" FormatHTML).2
  = (getEmailTemplate base_and_override "welcome" "marketing" FormatHTML).2.
Proof.
  apply (getEmailTemplate_layout_irrelevant (H := literal_engine));
    vm_compute; reflexivity.
Defined.

(** X3.  The cache key joins format, name and layout with colons, so two
    triples that spell the same key share one entry: after a document is
    resolved, the resolve of any triple with the same key returns that
    document's template without looking at the sources.  The name [a:b]
    with layout [c] and the name [a] with layout [b:c] are such a pair. *)
Theorem cacheKey_collision `{Engine} (m m1 : Manager) (name layout : string)
  (name' layout' : string) (format format' : TemplateFormat)
  (t : gmap string tree) :
  cacheKey name layout format = cacheKey name' layout' format' ->
  getEmailTemplate m name layout format = (m1, Ok t) ->
  getEmailTemplate m1 name' layout' format' = (m1, Ok t)
  /\ forall a b c f,
       cacheKey (a +:+ ":" +:+ b) c f = cacheKey a (b +:+ ":" +:+ c) f.
Proof.
  intros Hkey Hget. split; [|apply cacheKey_shift].
  apply getEmailTemplate_cached in Hget.
  now rewrite getEmailTemplate_unfold, <- Hkey, Hget.
Qed.

Lemma cacheKey_collision_witness :
  let m1 := (getEmailTemplate base_and_override "welcome" "x:y" FormatHTML).1 in
  (getEmailTemplate m1 "welcome:x" "y" FormatHTML).2
  = (getEmailTemplate base_and_override "welcome" "x:y" FormatHTML).2.
Proof.
  intros m1.
  destruct (cacheKey_collision (H := literal_engine) base_and_override m1
              "welcome" "x:y" "welcome:x" "y" FormatHTML FormatHTML
              (get_ok (getEmailTemplate base_and_override "welcome" "x:y"
                         FormatHTML).2 ∅)) as (Hget & _).
  - reflexivity.
  - apply step_eta. vm_compute. reflexivity.
  - rewrite Hget. symmetry. apply (result_eta _ ∅). vm_compute. reflexivity.
Defined.

(** X4.  The cache never holds a stale template: in the manager that
    [NewManager] returns, and after any [AddSource], [ClearCache], resolve
    or render, every cached template is the resolution of a document
    against the sources and base sets of that moment.  A resolve and a
    render leave sources and base sets alone and only add to the cache. *)
Theorem cache_stays_current `{Engine} (m : Manager) :
  (forall builtin config, NewManager builtin config = Ok m -> cache_current m)
  /\ (forall source, cache_current (AddSource m source).1)
  /\ cache_current (ClearCache m)
  /\ (forall name layout format,
        let out := getEmailTemplate m name layout format in
        (cache_current m -> cache_current out.1)
        /\ sources out.1 = sources m
        /\ (forall f, baseTemplates out.1 f = baseTemplates m f)
        /\ emailCache m ⊆ emailCache out.1)
  /\ (forall name d layout,
        let out := RenderEmail m name d layout in
        (cache_current m -> cache_current out.1)
        /\ sources out.1 = sources m
        /\ (forall f, baseTemplates out.1 f = baseTemplates m f)
        /\ emailCache m ⊆ emailCache out.1).
Proof.
  assert (Hempty : forall m0 : Manager, emailCache m0 = ∅ -> cache_current m0).
  { intros m0 Hc key t Hkey. rewrite Hc, lookup_empty in Hkey. discriminate. }
  assert (Hget : forall m0 name layout format,
            let out := getEmailTemplate m0 name layout format in
            (cache_current m0 -> cache_current out.1)
            /\ sources out.1 = sources m0
            /\ (forall f, baseTemplates out.1 f = baseTemplates m0 f)
            /\ emailCache m0 ⊆ emailCache out.1).
  { intros m0 name layout format. cbn zeta.
    destruct (getEmailTemplate_fields m0 name layout format)
      as (Hs & _ & _ & Hb & _).
    split; [apply cache_current_getEmailTemplate|].
    split; [exact Hs|]. split; [exact Hb | apply getEmailTemplate_grows]. }
  split; [|split; [|split; [|split]]].
  - intros builtin config Hnew.
    apply Hempty. now destruct (NewManager_result builtin config m Hnew) as (_ & ? & _).
  - intros source. apply Hempty. now destruct (AddSource_fields m source) as (_ & ? & _).
  - now apply Hempty.
  - intros name layout format. apply Hget.
  - intros name d layout. cbn zeta.
    destruct (Hget m name (layoutOf m layout) FormatText) as (Hc1 & Hs1 & Hb1 & Hg1).
    destruct (Hget (getEmailTemplate m name (layoutOf m layout) FormatText).1
                name (layoutOf m layout) FormatHTML) as (Hc2 & Hs2 & Hb2 & Hg2).
    destruct (RenderEmail_state m name d layout) as [-> | ->].
    + now repeat split.
    + split; [auto|]. split; [congruence|]. split.
      * intros f. now rewrite Hb2, Hb1.
      * now transitivity
          (emailCache (getEmailTemplate m name (layoutOf m layout) FormatText).1).
Qed.

Lemma cache_stays_current_witness :
  cache_current (RenderEmail welcome_cached "welcome" tt "").1.
Proof.
  destruct (cache_stays_current (H := literal_engine) welcome_cached)
    as (_ & _ & _ & _ & Hrender).
  apply (Hrender "welcome" tt "").
  unfold welcome_cached.
  destruct (cache_stays_current (H := literal_engine)
              (AddSource blank_manager
                 (email_source "base" "welcome.html" "Hello")).1)
    as (_ & _ & _ & Hresolve & _).
  apply (Hresolve "welcome" "base" FormatHTML).
  destruct (cache_stays_current (H := literal_engine) blank_manager)
    as (_ & Hadd & _).
  apply Hadd.
Defined.

(** X5.  A render that succeeds never returns two empty bodies, and it
    never sets the subject. *)
Theorem RenderEmail_success_shape `{Engine} (m : Manager) (name : string)
  (d : data) (layout : string) (email : RenderedEmail) :
  (RenderEmail m name d layout).2 = Ok email ->
  Subject email = "" /\ (Text email <> "" \/ HTML email <> "").
Proof.
  assert (Hhtml : forall m1 text,
            (renderHTML m1 name d (layoutOf m layout) text).2 = Ok email ->
            Subject email = "" /\ (Text email <> "" \/ HTML email <> "")).
  { intros m1 text. unfold renderHTML.
    assert (Hfin : forall (m2 : Manager) html,
              (if String.eqb text "" && String.eqb html ""
               then (m2, Err (NoTemplatesFound name))
               else (m2, Ok {| Subject := ""; Text := text; HTML := html |})).2
              = Ok email ->
              Subject email = "" /\ (Text email <> "" \/ HTML email <> "")).
    { intros m2 html.
      destruct (String.eqb_spec text "") as [->|Ht];
        [destruct (String.eqb_spec html "") as [->|Hh]|]; cbn;
        try discriminate; intros [= <-]; cbn; auto. }
    destruct (getEmailTemplate m1 name (layoutOf m layout) FormatHTML)
      as [m2 [tmpl|e]]; [|apply Hfin].
    destruct (executeTemplate tmpl "layout" d) as [html|err]; [|discriminate].
    destruct (processor m2) as [process|]; [|apply Hfin].
    destruct (process html) as [html'|err]; [apply Hfin | discriminate]. }
  unfold RenderEmail. fold (layoutOf m layout).
  destruct (getEmailTemplate m name (layoutOf m layout) FormatText)
    as [m1 [tmpl|e]]; [|apply Hhtml].
  destruct (executeTemplate tmpl "layout" d) as [text|err];
    [apply Hhtml | discriminate].
Qed.

Lemma RenderEmail_success_shape_witness :
  Subject {| Subject := ""; Text := "hello"; HTML := "" |} = ""
  /\ (Text {| Subject := ""; Text := "hello"; HTML := "" |} <> ""
      \/ HTML {| Subject := ""; Text := "hello"; HTML := "" |} <> "").
Proof.
  apply (RenderEmail_success_shape (H := literal_engine) text_only "layout" tt "").
  vm_compute. reflexivity.
Defined.

(** X6.  A document that is found but renders to nothing is reported as
    not found: when both formats resolve and execute, and both bodies come
    out empty, the render fails with "no templates found". *)
Theorem RenderEmail_empty_bodies `{Engine} (m m1 m2 : Manager) (name : string)
  (d : data) (layout : string) (tT tH : gmap string tree) (html : string) :
  getEmailTemplate m name (layoutOf m layout) FormatText = (m1, Ok tT) ->
  executeTemplate tT "layout" d = Ok "" ->
  getEmailTemplate m1 name (layoutOf m layout) FormatHTML = (m2, Ok tH) ->
  executeTemplate tH "layout" d = Ok html ->
  processHTML m2 html = Ok "" ->
  RenderEmail m name d layout = (m2, Err (NoTemplatesFound name)).
Proof.
  intros HT HeT HH HeH Hp. unfold RenderEmail. fold (layoutOf m layout).
  rewrite HT, HeT. unfold renderHTML. rewrite HH, HeH.
  unfold processHTML in Hp. destruct (processor m2) as [process|].
  - now rewrite Hp.
  - now injection Hp as ->.
Qed.

Lemma RenderEmail_empty_bodies_witness :
  (RenderEmail blank_documents "layout" tt "").2 = Err (NoTemplatesFound "layout").
Proof.
  set (l := layoutOf blank_documents "").
  set (o1 := getEmailTemplate blank_documents "layout" l FormatText).
  set (o2 := getEmailTemplate o1.1 "layout" l FormatHTML).
  rewrite (RenderEmail_empty_bodies (H := literal_engine) blank_documents
             o1.1 o2.1 "layout" tt "" (get_ok o1.2 ∅) (get_ok o2.2 ∅) "").
  - reflexivity.
  - apply step_eta. vm_compute. reflexivity.
  - vm_compute. reflexivity.
  - apply step_eta. vm_compute. reflexivity.
  - vm_compute. reflexivity.
  - vm_compute. reflexivity.
Defined.

Section Construction.
Context `{Engine}.

Lemma addSources_fields (l : list TemplateSource) : forall m m',
  addSources m l = Ok m' ->
  processor m' = processor m /\ defaultLayout m' = defaultLayout m.
Proof.
  induction l as [|source l IH]; intros m m' Hadd; cbn [addSources] in Hadd.
  - now injection Hadd as <-.
  - destruct (AddSource_fields m source) as (_ & _ & Hp & Hd).
    destruct (AddSource m source) as [m1 [e|]]; [discriminate|].
    destruct (IH m1 m' Hadd) as (Hp' & Hd'). cbn [fst] in *. split; congruence.
Qed.

Lemma AddSource_ok_iff (m m0 : Manager) (source : TemplateSource) :
  (AddSource m source).2 = None
  <-> forall s, s ∈ sources m ++ [source] -> (loadSource m0 s).2 = None.
Proof.
  unfold AddSource, loadBaseTemplates.
  cbn [sources set_sources set_emailCache set_baseTemplates]. split.
  - intros Hok s Hs. eapply (loadSources_failure _ m0); eassumption.
  - intros Hall. now apply loadSources_succeeds with (m0 := m0).
Qed.

(** Adding sources one by one to a registry that loads: all are added when
    all load, and otherwise the first one that does not is reported. *)
Lemma addSources_outcome (m0 : Manager) (l : list TemplateSource) : forall m,
  (forall s, s ∈ sources m -> (loadSource m0 s).2 = None) ->
  match addSources m l with
  | Ok _ => forall s, s ∈ l -> (loadSource m0 s).2 = None
  | Err e =>
      exists l1 s l2 e', e = AddSourceFailed (Name s) e' /\ l = l1 ++ s :: l2
        /\ (loadSource m0 s).2 <> None
        /\ forall x, x ∈ l1 -> (loadSource m0 x).2 = None
  end.
Proof.
  induction l as [|source l IH]; intros m Hm; cbn [addSources].
  - intros s Hs. inversion Hs.
  - pose proof (AddSource_ok_iff m m0 source) as Hiff.
    destruct (AddSource_fields m source) as (Hs1 & _).
    destruct (AddSource m source) as [m1 [e|]]; cbn [fst snd] in *.
    + exists [], source, l, e. repeat split; [|intros x Hx; inversion Hx].
      intros Hok. assert (Hnone : Some e = None); [|discriminate].
      apply Hiff. intros s [Hs|Hs]%elem_of_app; [now apply Hm|].
      apply list_elem_of_singleton in Hs. now subst.
    + assert (Hall : forall s, s ∈ sources m ++ [source] ->
                       (loadSource m0 s).2 = None) by now apply Hiff.
      specialize (IH m1). rewrite Hs1 in IH. specialize (IH Hall).
      destruct (addSources m1 l) as [m'|e].
      * intros s [->|Hs]%elem_of_cons; [|now apply IH].
        apply Hall, elem_of_app. right. now left.
      * destruct IH as (l1 & s & l2 & e' & -> & -> & Hbad & Hgood).
        exists (source :: l1), s, l2, e'. repeat split; [assumption|].
        intros x [->|Hx]%elem_of_cons; [|now apply Hgood].
        apply Hall, elem_of_app. right. now left.
Qed.






End Construction.

(** X7.  The manager [NewManager] returns always has a processor and a
    default layout: the ones of the configuration, or the pass-through
    processor and the layout "base" where the configuration names none
    (or is nil); its cache is empty. *)
Theorem NewManager_defaults `{Engine} (builtin : Fs.FS)
  (config : option ManagerConfig) (m : Manager) :
  NewManager builtin config = Ok m ->
  processor m = Some (configuredProcessor config)
  /\ defaultLayout m = configuredLayout config
  /\ defaultLayout m <> ""
  /\ emailCache m = ∅.
Proof.
  intros Hnew.
  destruct (NewManager_result builtin config m Hnew) as (_ & Hcache & _).
  assert (Hfields : processor m = Some (configuredProcessor config)
                    /\ defaultLayout m = configuredLayout config).
  { unfold NewManager in Hnew.
    set (c := match config with Some c => c | None => _ end) in *.
    set (m0 := {| processor := _; defaultLayout := _; sources := [];
                  baseText := _; baseHTML := _; emailCache := _ |}) in *.
    destruct (AddSource_fields m0 {| Name := "built-in"; FS := builtin |})
      as (_ & _ & Hp & Hd).
    destruct (AddSource m0 _) as [m1 [e|]]; [discriminate|].
    destruct (addSources_fields _ _ _ Hnew) as (Hp' & Hd'). cbn [fst] in *.
    rewrite Hp', Hp, Hd', Hd. unfold configuredProcessor, configuredLayout.
    destruct config as [c0|]; cbn; [|now split].
    subst c. now destruct (Processor c0). }
  destruct Hfields as (Hp & Hd). repeat split; try assumption.
  rewrite Hd. unfold configuredLayout. destruct config as [c|]; [|discriminate].
  destruct (String.eqb_spec (DefaultLayout c) ""); [discriminate | assumption].
Qed.

Lemma NewManager_defaults_witness :
  defaultLayout (get_ok custom_alert blank_manager) = "base".
Proof.
  apply (NewManager_defaults (H := literal_engine) (alert_tree "built-in")
           (user_config "custom")).
  apply result_eta. vm_compute. reflexivity.
Defined.

(** X8.  [NewManager] succeeds exactly when the built-in source and every
    source of the configuration load; when it fails on a source of the
    configuration, the error names the first one, in their order, that does
    not load. *)
Theorem NewManager_failure `{Engine} (builtin : Fs.FS)
  (config : option ManagerConfig) (m0 : Manager) :
  (is_ok (NewManager builtin config) = true
   <-> forall s, s ∈ builtinSource builtin :: userSources config ->
         (loadSource m0 s).2 = None)
  /\ (forall name e,
        NewManager builtin config = Err (AddSourceFailed name e) ->
        exists l1 s l2,
          userSources config = l1 ++ s :: l2 /\ Name s = name
          /\ (loadSource m0 s).2 <> None
          /\ forall x, x ∈ builtinSource builtin :: l1 ->
               (loadSource m0 x).2 = None).
Proof.
  unfold NewManager.
  set (c := match config with Some c => c | None => _ end).
  set (m1 := {| processor := _; defaultLayout := _; sources := [];
                baseText := _; baseHTML := _; emailCache := _ |}).
  assert (Huser : Sources c = userSources config) by now destruct config.
  pose proof (AddSource_ok_iff m1 m0 (builtinSource builtin)) as Hiff.
  destruct (AddSource_fields m1 (builtinSource builtin)) as (Hs & _).
  fold (builtinSource builtin).
  destruct (AddSource m1 (builtinSource builtin)) as [m2 [e|]];
    cbn [fst snd] in *.
  - split; [|discriminate]. split; [discriminate|].
    intros Hall. assert (Hnone : Some e = None); [|discriminate].
    apply Hiff. intros s Hs'. apply Hall. cbn in Hs'.
    apply list_elem_of_singleton in Hs'. subst. now left.
  - assert (Hb : forall s, s ∈ sources m2 -> (loadSource m0 s).2 = None).
    { rewrite Hs. now apply Hiff. }
    pose proof (addSources_outcome m0 (Sources c) m2 Hb) as Hout.
    rewrite Huser in *. rewrite Hs in Hb. cbn in Hb.
    destruct (addSources m2 (userSources config)) as [m'|e].
    + split; [|discriminate]. split; [|reflexivity].
      intros _ s [->|Hin]%elem_of_cons; [|now apply Hout].
      apply Hb. now left.
    + destruct Hout as (l1 & s & l2 & e' & -> & Hl & Hbad & Hgood).
      split.
      * split; [discriminate|]. intros Hall. exfalso. apply Hbad, Hall.
        right. rewrite Hl. apply elem_of_app. right. now left.
      * intros name e0 [= <- <-]. exists l1, s, l2. repeat split; try assumption.
        intros x [->|Hx]%elem_of_cons; [|now apply Hgood].
        apply Hb. now left.
Qed.

Lemma NewManager_failure_witness :
  is_ok (NewManager (H := literal_engine) (alert_tree "built-in")
           (user_config "custom")) = true.
Proof.
  apply (NewManager_failure (H := literal_engine) (alert_tree "built-in")
           (user_config "custom") blank_manager).
  intros s Hs. apply list_elem_of_In in Hs.
  destruct Hs as [<-|[<-|[]]]; vm_compute; reflexivity.
Defined.



(** * Identifiers *)

Lemma append_inj_l (a s1 s2 : string) : a +:+ s1 = a +:+ s2 -> s1 = s2.
Proof.
  induction a as [|c a IH]; intros Heq; [exact Heq|].
  change (String c (a +:+ s1) = String c (a +:+ s2)) in Heq.
  injection Heq as Heq. now apply IH.
Qed.

Lemma templateName_stem (rootDir stem ext : string) :
  plain_ext ext = true ->
  templateName rootDir (rootDir +:+ "/" +:+ stem +:+ "." +:+ ext)
  = role_tag rootDir +:+ stem.
Proof.
  intros Hext.
  rewrite (templateName_tag rootDir (stem +:+ "." +:+ ext)).
  - rewrite Ext_stem_ext by assumption. f_equal. apply TrimSuffix_append.
  - rewrite TrimPrefix_append. apply (TrimPrefix_append "/").
Qed.

(** X10.  Within one format the canonical identifier determines the file:
    two template files of the role directories with the same extension get
    the same name only when they are the same file of the same
    directory. *)
Theorem templateName_injective (root1 root2 stem1 stem2 ext : string) :
  root1 ∈ roleDirs -> root2 ∈ roleDirs -> plain_ext ext = true ->
  templateName root1 (root1 +:+ "/" +:+ stem1 +:+ "." +:+ ext)
  = templateName root2 (root2 +:+ "/" +:+ stem2 +:+ "." +:+ ext) ->
  root1 = root2 /\ stem1 = stem2.
Proof.
  intros H1 H2 Hext. rewrite !templateName_stem by assumption.
  unfold roleDirs in *. apply list_elem_of_In in H1, H2.
  destruct H1 as [<-|[<-|[<-|[]]]], H2 as [<-|[<-|[<-|[]]]]; intros Heq;
    try (split; [reflexivity|]; eapply append_inj_l; exact Heq);
    exfalso; apply (f_equal (String.get 0)) in Heq; cbv in Heq; discriminate.
Qed.

Lemma templateName_injective_witness :
  "layouts" = "layouts" /\ "base" = "base".
Proof.
  apply (templateName_injective "layouts" "layouts" "base" "base" "html").
  - now left.
  - now left.
  - reflexivity.
  - reflexivity.
Defined.

(** * The other template helpers *)

Lemma wrap_int_id (a : Z) : is_int a -> wrap_int a = a.
Proof.
  unfold is_int, wrap_int, int_min, int_max. intros Ha.
  rewrite Z.mod_small by lia. lia.
Qed.

Lemma wrap_int_range (a : Z) : is_int (wrap_int a).
Proof.
  unfold is_int, wrap_int, int_min, int_max.
  pose proof (Z.mod_pos_bound (a - - 2 ^ 63) (2 ^ 64) ltac:(lia)). lia.
Qed.

(** X11.  [intAdd] and [intSub] stay in the range of [int], are exact
    when the exact result is in range, and undo each other even when the
    sum wraps around. *)
Theorem intAdd_intSub (a b : Z) :
  is_int a -> is_int b ->
  is_int (intAdd a b) /\ is_int (intSub a b)
  /\ (is_int (a + b) -> intAdd a b = (a + b)%Z)
  /\ (is_int (a - b) -> intSub a b = (a - b)%Z)
  /\ intSub (intAdd a b) b = a
  /\ intAdd (intSub a b) b = a.
Proof.
  intros Ha Hb. unfold intAdd, intSub.
  split; [apply wrap_int_range|]. split; [apply wrap_int_range|].
  split; [apply wrap_int_id|]. split; [apply wrap_int_id|].
  unfold is_int, wrap_int, int_min, int_max in *.
  split.
  - replace ((a + b - - 2 ^ 63) mod 2 ^ 64 + - 2 ^ 63 - b - - 2 ^ 63)%Z
      with ((a + b - - 2 ^ 63) mod 2 ^ 64 - b)%Z by lia.
    rewrite Zminus_mod_idemp_l.
    replace (a + b - - 2 ^ 63 - b)%Z with (a - - 2 ^ 63)%Z by lia.
    rewrite Z.mod_small by lia. lia.
  - replace ((a - b - - 2 ^ 63) mod 2 ^ 64 + - 2 ^ 63 + b - - 2 ^ 63)%Z
      with ((a - b - - 2 ^ 63) mod 2 ^ 64 + b)%Z by lia.
    rewrite Zplus_mod_idemp_l.
    replace (a - b - - 2 ^ 63 + b)%Z with (a - - 2 ^ 63)%Z by lia.
    rewrite Z.mod_small by lia. lia.
Qed.

Lemma intAdd_intSub_witness :
  intAdd int_max 1 = int_min /\ intSub (intAdd int_max 1) 1 = int_max.
Proof.
  destruct (intAdd_intSub int_max 1) as (_ & _ & _ & _ & Hback & _).
  - unfold is_int, int_min, int_max. lia.
  - unfold is_int, int_min, int_max. lia.
  - split; [reflexivity | exact Hback].
Defined.

Lemma newMap_loop_pairs (kvs : list (string * any)) : forall res,
  newMap_loop (pairs_of kvs) res
  = Ok (foldl (fun acc kv => <[kv.1 := kv.2]> acc) res kvs).
Proof.
  induction kvs as [|[k v] kvs IH]; intros res; [reflexivity|]. apply IH.
Qed.

Lemma length_pairs_of (kvs : list (string * any)) :
  length (pairs_of kvs) = 2 * length kvs.
Proof.
  induction kvs as [|kv kvs IH]; [reflexivity|].
  change (S (S (length (pairs_of kvs))) = 2 * S (length kvs)). lia.
Qed.

Lemma foldl_insert_lookup (kvs : list (string * any)) (k : string) :
  forall res : gmap string any,
    foldl (fun acc kv => <[kv.1 := kv.2]> acc) res kvs !! k
    = match list_find (fun kv => kv.1 = k) (rev kvs) with
      | Some (_, kv) => Some kv.2
      | None => res !! k
      end.
Proof.
  induction kvs as [|[k' v] kvs IH] using rev_ind; intros res; [reflexivity|].
  rewrite foldl_app, rev_app_distr. cbn [foldl rev app list_find].
  cbn [fst snd]. destruct (decide (k' = k)) as [->|Hne]; cbn.
  - apply lookup_insert_eq.
  - rewrite lookup_insert_ne by assumption. rewrite IH.
    now destruct (list_find _ (rev kvs)) as [[i kv]|].
Qed.

Lemma newMap_loop_ok (n : nat) : forall pairs res r,
  length pairs <= 2 * n ->
  newMap_loop pairs res = Ok r -> exists kvs, pairs = pairs_of kvs.
Proof.
  induction n as [|n IH]; intros pairs res r Hlen Hok.
  - destruct pairs; [now exists [] | cbn in Hlen; lia].
  - destruct pairs as [|key [|value rest]].
    + now exists [].
    + destruct key; discriminate.
    + destruct key as [| k | |]; try discriminate.
      cbn [newMap_loop] in Hok. apply IH in Hok as [kvs ->]; [|cbn in Hlen; lia].
      now exists ((k, value) :: kvs).
Qed.

(** X12.  [newMap] succeeds exactly on an even number of arguments whose
    every first-of-a-pair is a string; the map then holds, for each key,
    the value of the last pair with that key, and nothing else. *)
Theorem newMap_pairs (kvs : list (string * any)) (k : string) :
  (exists r, newMap (pairs_of kvs) = Ok r
     /\ r !! k = match list_find (fun kv => kv.1 = k) (rev kvs) with
                 | Some (_, kv) => Some kv.2
                 | None => None
                 end)
  /\ (forall pairs r, newMap pairs = Ok r -> exists kvs', pairs = pairs_of kvs')
  /\ (forall pairs, Nat.Odd (length pairs) -> newMap pairs = Err PairsRequired).
Proof.
  split; [|split].
  - eexists. split.
    + unfold newMap. rewrite length_pairs_of.
      replace (2 * length kvs mod 2 =? 0)%nat with true.
      * apply newMap_loop_pairs.
      * symmetry. apply Nat.eqb_eq.
        rewrite Nat.mul_comm. apply Nat.Div0.mod_mul.
    + now rewrite foldl_insert_lookup.
  - intros pairs r. unfold newMap.
    destruct (length pairs mod 2 =? 0)%nat; [|discriminate].
    apply (newMap_loop_ok (length pairs)). lia.
  - intros pairs [n Hn]. unfold newMap. rewrite Hn.
    replace ((2 * n + 1) mod 2 =? 0)%nat with false; [reflexivity|].
    symmetry. apply Nat.eqb_neq.
    rewrite Nat.add_comm, Nat.mul_comm, Nat.Div0.mod_add. discriminate.
Qed.

Lemma newMap_pairs_witness :
  newMap [Str "a"; Int 1; Nil] = Err PairsRequired.
Proof.
  apply (newMap_pairs [] "a"). exists 1. reflexivity.
Defined.

Lemma copyInto_union {V : Type} (dst src : gmap string V) :
  copyInto dst src = src ∪ dst.
Proof.
  unfold copyInto.
  apply (map_fold_weak_ind (fun r m => r = m ∪ dst)).
  - now rewrite (left_id_L ∅ (∪)).
  - intros i x m r _ ->. now rewrite insert_union_l.
Qed.

Lemma MergeFuncMaps_loop_lookup {F : Type} (maps : list (option (gmap string F)))
  (k : string) : forall res,
  MergeFuncMaps_loop maps res !! k
  = match list_find (fun m => is_Some (m ≫= (.!! k))) (rev maps) with
    | Some (_, m) => m ≫= (.!! k)
    | None => res !! k
    end.
Proof.
  induction maps as [|m maps IH] using rev_ind; intros res; [reflexivity|].
  assert (Happ : forall res0, MergeFuncMaps_loop (maps ++ [m]) res0
                 = MergeFuncMaps_loop [m] (MergeFuncMaps_loop maps res0)).
  { clear. induction maps as [|m' maps IH]; intros res0; [reflexivity|].
    destruct m'; cbn [app MergeFuncMaps_loop]; apply IH. }
  rewrite Happ, rev_app_distr. cbn [rev app list_find MergeFuncMaps_loop].
  destruct m as [m|]; cbn.
  - rewrite copyInto_union, lookup_union.
    destruct (m !! k) as [v|] eqn:Hk; cbn.
    + destruct (decide (is_Some (Some v))) as [_|Hno]; [|exfalso; eauto]. cbn.
      now destruct (MergeFuncMaps_loop maps res !! k).
    + destruct (decide (is_Some None)) as [[? Hno]|_]; [discriminate|].
      rewrite (left_id_L None union), IH.
      now destruct (list_find _ (rev maps)) as [[i m']|].
  - destruct (decide (is_Some None)) as [[? Hno]|_]; [discriminate|].
    rewrite IH. now destruct (list_find _ (rev maps)) as [[i m']|].
Qed.

(** X13.  [MergeFuncMaps] gives every name the function of the last map
    that has it; nil maps are passed over, and a name no map has is
    absent. *)
Theorem MergeFuncMaps_last_wins {F : Type}
  (maps : list (option (gmap string F))) (k : string) :
  MergeFuncMaps maps !! k
  = match list_find (fun m => is_Some (m ≫= (.!! k))) (rev maps) with
    | Some (_, m) => m ≫= (.!! k)
    | None => None
    end
  /\ (forall before after m v,
        maps = before ++ Some m :: after -> m !! k = Some v ->
        (forall m', Some m' ∈ after -> m' !! k = None) ->
        MergeFuncMaps maps !! k = Some v).
Proof.
  assert (Hlookup : MergeFuncMaps maps !! k
            = match list_find (fun m => is_Some (m ≫= (.!! k))) (rev maps) with
              | Some (_, m) => m ≫= (.!! k)
              | None => None
              end).
  { unfold MergeFuncMaps. now rewrite MergeFuncMaps_loop_lookup. }
  split; [exact Hlookup|].
  intros before after m v -> Hm Hafter. rewrite Hlookup.
  rewrite rev_app_distr. cbn [rev]. rewrite <- app_assoc. cbn [app].
  assert (Hskip : forall l rest,
            (forall m', Some m' ∈ l -> m' !! k = None) ->
            list_find (fun m0 : option (gmap string F) => is_Some (m0 ≫= (.!! k)))
              (l ++ Some m :: rest)
            = Some (length l, Some m)).
  { intros l rest Hl. apply list_find_Some. split; [|split].
    - now rewrite lookup_app_r, Nat.sub_diag by lia.
    - cbn. rewrite Hm. eauto.
    - intros j y Hj Hlt. rewrite lookup_app_l in Hj by assumption.
      destruct y as [m'|]; cbn; [|intros [? ?]; discriminate].
      rewrite (Hl m'); [intros [? ?]; discriminate|].
      eapply list_elem_of_lookup_2. exact Hj. }
  rewrite Hskip.
  - cbn. exact Hm.
  - intros m' Hin. apply Hafter. exact (proj1 (elem_of_rev _ _) Hin).
Qed.

Lemma MergeFuncMaps_last_wins_witness :
  MergeFuncMaps [Some {[ "add" := 1 ]}; None; Some {[ "add" := 2 ]}] !! "add"
  = Some 2.
Proof.
  destruct (MergeFuncMaps_last_wins
              [Some {[ "add" := 1 ]}; None; Some ({[ "add" := 2 ]} : gmap string nat)]
              "add") as (_ & Hlast).
  apply (Hlast [Some {[ "add" := 1 ]}; None] [] {[ "add" := 2 ]} 2).
  - reflexivity.
  - vm_compute. reflexivity.
  - intros m' Hin. inversion Hin.
Defined.

(** * Template data *)

(** X14.  [Merge] (and [mergeData], which is the same loop) returns a new
    map in which every key of the second map has the value of the second
    map and every other key keeps the value of the first; merging with an
    empty map on either side changes nothing, and merging is associative. *)
Theorem Merge_overlay (td data : gmap string any) (k : string) :
  Merge td data !! k
  = match data !! k with
    | Some v => Some v
    | None => td !! k
    end
  /\ mergeData td data = Merge td data
  /\ Merge td ∅ = td /\ Merge ∅ data = data
  /\ forall more, Merge (Merge td data) more = Merge td (Merge data more).
Proof.
  assert (Hunion : forall a b : gmap string any, Merge a b = b ∪ a).
  { intros a b. unfold Merge. rewrite !copyInto_union.
    now rewrite (right_id_L ∅ (∪)). }
  split; [|split; [|split; [|split]]].
  - rewrite Hunion, lookup_union. destruct (data !! k), (td !! k); reflexivity.
  - reflexivity.
  - rewrite Hunion. apply (left_id_L ∅ (∪)).
  - rewrite Hunion. apply (right_id_L ∅ (∪)).
  - intros more. rewrite !Hunion. apply (assoc_L (∪)).
Qed.

Lemma MergeKeys_fold (td data : gmap string any) (k : string) :
  MergeKeys td data !! k
  = match data !! k with
    | Some v => Some (mergedValue (td !! k) v)
    | None => td !! k
    end.
Proof.
  unfold MergeKeys. rewrite copyInto_union, (right_id_L ∅ (∪)).
  revert k.
  apply (map_fold_weak_ind
           (fun (r : gmap string any) (m : gmap string any) =>
              forall k, r !! k = match m !! k with
                                 | Some v => Some (mergedValue (td !! k) v)
                                 | None => td !! k
                                 end)).
  - intros k. now rewrite lookup_empty.
  - intros i x m r Hi IH k.
    assert (Hri : r !! i = td !! i) by (now rewrite IH, Hi).
    assert (Hstep : (match index r i, x with
                     | Map existingMap, Map newMap =>
                         <[i := Map (copyInto (copyInto ∅ existingMap) newMap)]> r
                     | _, _ => <[i := x]> r
                     end) = <[i := mergedValue (td !! i) x]> r).
    { unfold index, mergedValue. rewrite Hri.
      destruct (td !! i) as [[| | |e]|]; try reflexivity.
      destruct x as [| | |n]; try reflexivity.
      now rewrite !copyInto_union, (right_id_L ∅ (∪)). }
    rewrite Hstep. destruct (decide (i = k)) as [->|Hne].
    + now rewrite !lookup_insert_eq.
    + rewrite !lookup_insert_ne by assumption. apply IH.
Qed.

(** X15.  [MergeKeys] treats each key on its own: a key of the new data
    whose old and new values are both maps gets the old map with the
    entries of the new one laid over it (one level deep); any other key of
    the new data gets the new value; the remaining keys keep theirs. *)
Theorem MergeKeys_lookup (td data : gmap string any) (k : string) :
  MergeKeys td data !! k
  = match data !! k with
    | Some v => Some (mergedValue (td !! k) v)
    | None => td !! k
    end
  /\ (forall old new, td !! k = Some (Map old) -> data !! k = Some (Map new) ->
        MergeKeys td data !! k = Some (Map (new ∪ old)))
  /\ (forall v, data !! k = Some v -> (forall new, v <> Map new) ->
        MergeKeys td data !! k = Some v).
Proof.
  split; [apply MergeKeys_fold|]. split.
  - intros old new Hold Hnew. now rewrite MergeKeys_fold, Hnew, Hold.
  - intros v Hv Hscalar. rewrite MergeKeys_fold, Hv. unfold mergedValue.
    destruct (td !! k) as [[| | |e]|]; try reflexivity.
    destruct v as [| | |n]; try reflexivity. now destruct (Hscalar n).
Qed.

Lemma MergeKeys_lookup_witness :
  MergeKeys {[ "links" := Map {[ "home" := Str "/home" ]} ]}
            {[ "links" := Map {[ "about" := Str "/about" ]} ]} !! "links"
  = Some (Map ({[ "about" := Str "/about" ]} ∪ {[ "home" := Str "/home" ]})).
Proof.
  destruct (MergeKeys_lookup
              {[ "links" := Map {[ "home" := Str "/home" ]} ]}
              {[ "links" := Map {[ "about" := Str "/about" ]} ]} "links")
    as (_ & Hmaps & _).
  apply Hmaps; apply lookup_singleton_eq.
Defined.

(** * Processors *)

(** X16.  A composite processor runs its processors in order on the
    output of the one before and stops at the first failure: the composite
    of two lists is the composite of the first followed by the composite of
    the second, no processors is the pass-through, and one processor is
    itself. *)
Theorem CompositeProcess_app (ps qs : list HTMLProcessor) (html : string) :
  CompositeProcess (ps ++ qs) html
  = match CompositeProcess ps html with
    | Err err => Err err
    | Ok html' => CompositeProcess qs html'
    end
  /\ CompositeProcess [] html = DefaultProcessor html
  /\ (forall p, CompositeProcess [p] html = p html).
Proof.
  split; [|split; [reflexivity|]].
  - revert html. induction ps as [|p ps IH]; intros html; [reflexivity|].
    cbn [app CompositeProcess]. destruct (p html); [apply IH | reflexivity].
  - intros p. cbn. now destruct (p html).
Qed.

(** * The theme accessor *)

Lemma Split_nonempty (s : string) (sep : ascii) : Strings.Split s sep <> [].
Proof.
  destruct s as [|c s]; cbn; [discriminate|].
  destruct (Ascii.eqb c sep); [discriminate|].
  destruct (Strings.Split s sep); discriminate.
Qed.

Lemma Split_app (p q : string) (sep : ascii) :
  Strings.Split (p +:+ String sep q) sep
  = Strings.Split p sep ++ Strings.Split q sep.
Proof.
  induction p as [|c p IH].
  - change (Strings.Split (String sep q) sep = [""] ++ Strings.Split q sep).
    cbn [Strings.Split]. now rewrite Ascii.eqb_refl.
  - change (Strings.Split (String c (p +:+ String sep q)) sep
            = Strings.Split (String c p) sep ++ Strings.Split q sep).
    cbn [Strings.Split]. rewrite IH.
    destruct (Ascii.eqb c sep); [reflexivity|].
    pose proof (Split_nonempty p sep) as Hne.
    now destruct (Strings.Split p sep).
Qed.

Lemma Split_lacks (s : string) (sep : ascii) :
  lacks sep s = true -> Strings.Split s sep = [s].
Proof.
  induction s as [|c s IH]; intros Hs; [reflexivity|].
  cbn [lacks] in Hs. apply andb_prop in Hs as [Hc Hs].
  apply negb_true_iff in Hc. cbn [Strings.Split]. now rewrite Hc, IH.
Qed.

Lemma GetThemeValue_segments (theme : gmap string any) (path : string) :
  path <> "" ->
  GetThemeValue theme path = lookup_spec theme (Strings.Split path ".").
Proof.
  intros Hpath. unfold GetThemeValue.
  apply String.eqb_neq in Hpath. rewrite Hpath.
  now apply themeLoop_lookup_spec.
Qed.

Lemma descend_app (a b : list string) : forall t : gmap string any,
  descend t (a ++ b)
  = match descend t a with
    | Some m => descend m b
    | None => None
    end.
Proof.
  induction a as [|seg a IH]; intros t; [reflexivity|]. cbn [app descend].
  destruct (t !! seg) as [[| | |next]|]; try reflexivity. apply IH.
Qed.

Lemma last_app_nonempty {A : Type} (a b : list A) (d : A) :
  b <> [] -> List.last (a ++ b) d = List.last b d.
Proof.
  intros Hb. induction a as [|x a IH]; [reflexivity|].
  cbn [app]. destruct (a ++ b) eqn:Hab.
  - destruct a, b; try discriminate. now destruct Hb.
  - exact IH.
Qed.

Lemma lookup_spec_Map (t sub : gmap string any) (segs : list string) :
  lookup_spec t segs = Map sub -> descend t segs = Some sub.
Proof.
  destruct segs as [|s segs]; [discriminate|]. unfold lookup_spec.
  pose proof (app_removelast_last "" (l := s :: segs) ltac:(discriminate)) as Hdec.
  set (R := removelast (s :: segs)) in *.
  set (L := List.last (s :: segs) "") in *.
  rewrite Hdec, descend_app.
  destruct (descend t R) as [m|]; [|discriminate].
  intros Hidx. apply index_Map in Hidx. cbn [descend]. now rewrite Hidx.
Qed.

(** X17.  Theme paths compose: when a path leads to a nested map, a
    longer path that continues below it gives what the rest of the path
    gives in that map. *)
Theorem GetThemeValue_compose (theme sub : gmap string any) (p q : string) :
  GetThemeValue theme p = Map sub -> q <> "" ->
  GetThemeValue theme (p +:+ "." +:+ q) = GetThemeValue sub q.
Proof.
  intros Hp Hq.
  assert (Hpne : p <> "") by (intros ->; discriminate).
  assert (Hpq : p +:+ "." +:+ q <> "").
  { intros Heq. apply (f_equal String.length) in Heq.
    rewrite length_append in Heq. destruct p; [congruence | cbn in Heq; lia]. }
  rewrite GetThemeValue_segments in Hp by assumption.
  rewrite !GetThemeValue_segments by assumption.
  change (p +:+ "." +:+ q) with (p +:+ String "." q). rewrite Split_app.
  apply lookup_spec_Map in Hp.
  pose proof (Split_nonempty q ".") as Hb.
  pose proof (Split_nonempty p ".") as Ha.
  set (A := Strings.Split p ".") in *. set (B := Strings.Split q ".") in *.
  unfold lookup_spec.
  destruct (A ++ B) as [|x l] eqn:Hab; [destruct A; [now destruct Ha | discriminate]|].
  rewrite <- Hab. destruct B as [|y B'] eqn:HB; [now destruct Hb|].
  rewrite removelast_app, last_app_nonempty by discriminate.
  now rewrite descend_app, Hp.
Qed.

Lemma GetThemeValue_compose_witness :
  GetThemeValue theme_example ("a" +:+ "." +:+ "b")
  = GetThemeValue {[ "b" := Str "v" ]} "b".
Proof.
  apply (GetThemeValue_compose theme_example {[ "b" := Str "v" ]} "a" "b").
  - vm_compute. reflexivity.
  - discriminate.
Defined.

(** X18.  A key without dots is read back as it was stored: after a
    value is put under such a key at the top of a theme the accessor
    returns it, other such keys are not affected, and a key that is absent
    reads as nil. *)
Theorem GetThemeValue_insert (theme : gmap string any) (k : string) (v : any) :
  k <> "" -> lacks "." k = true ->
  GetThemeValue (<[k := v]> theme) k = v
  /\ GetThemeValue theme k = index theme k
  /\ (forall k', k' <> "" -> lacks "." k' = true -> k' <> k ->
        GetThemeValue (<[k := v]> theme) k' = GetThemeValue theme k').
Proof.
  intros Hk Hdots.
  assert (Hone : forall (t : gmap string any) key,
            key <> "" -> lacks "." key = true ->
            GetThemeValue t key = index t key).
  { intros t key Hkey Hl.
    now rewrite GetThemeValue_segments, Split_lacks by assumption. }
  split; [|split].
  - rewrite Hone by assumption. unfold index. now rewrite lookup_insert_eq.
  - now apply Hone.
  - intros k' Hk' Hl' Hne. rewrite !Hone by assumption.
    unfold index. now rewrite lookup_insert_ne by congruence.
Qed.

Lemma GetThemeValue_insert_witness :
  GetThemeValue (<[ "spacing" := Str "4px" ]> theme_example) "spacing" = Str "4px".
Proof.
  apply (GetThemeValue_insert theme_example "spacing" (Str "4px")).
  - discriminate.
  - reflexivity.
Defined.

(** * The load sequence, in full *)

Section SettlingFacts.
Context `{Engine}.

Lemma settled_cons (o : option tree) (id name : string) (tr : tree)
  (ds : list (string * tree)) (t : gmap string tree) :
  t !! id = o ->
  settled (Template.AddParseTree t name tr !! id) id ds
  = settled o id ((name, tr) :: ds).
Proof.
  intros <-. unfold settled. cbn [last_body first_def].
  destruct (last_body id ds) as [x|]; [reflexivity|].
  destruct (decide (name = id)) as [->|Hne].
  - destruct (IsEmptyTree tr) eqn:Hempty.
    + destruct (t !! id) as [old|] eqn:Hold.
      * now rewrite (AddParseTree_lookup_empty t id old tr).
      * now rewrite AddParseTree_lookup_fresh.
    + now rewrite AddParseTree_lookup_nonempty.
  - now rewrite AddParseTree_lookup_ne.
Qed.

Lemma AddParseTrees_settled (ds : list (string * tree)) (id : string) :
  forall t : gmap string tree,
    Template.AddParseTrees t ds !! id = settled (t !! id) id ds.
Proof.
  induction ds as [|[name tr] ds IH]; intros t.
  - unfold settled. cbn. now destruct (t !! id).
  - change (Template.AddParseTrees (Template.AddParseTree t name tr) ds !! id
            = settled (t !! id) id ((name, tr) :: ds)).
    rewrite IH. now apply settled_cons.
Qed.

Lemma settled_twice (o : option tree) (id : string) (ds : list (string * tree)) :
  settled (settled o id ds) id ds = settled o id ds.
Proof.
  unfold settled. destruct (last_body id ds); [reflexivity|].
  destruct o; [reflexivity|]. now destruct (first_def id ds).
Qed.

(** Parsing a sequence a second time changes nothing. *)
Lemma AddParseTrees_twice (t : gmap string tree) (ds : list (string * tree)) :
  Template.AddParseTrees (Template.AddParseTrees t ds) ds
  = Template.AddParseTrees t ds.
Proof.
  apply map_eq. intros id.
  now rewrite AddParseTrees_settled, (AddParseTrees_settled ds id t), settled_twice.
Qed.

Lemma last_body_defined (id : string) (ds : list (string * tree)) (t : tree) :
  last_body id ds = Some t -> id ∈ ds.*1.
Proof.
  revert t. induction ds as [|[name tr] ds IH]; intros t; [discriminate|].
  cbn [last_body]. destruct (last_body id ds) as [x|].
  - intros _. right. now apply (IH x).
  - destruct (decide (name = id)) as [->|]; [|discriminate]. intros _. now left.
Qed.

Lemma first_def_None (id : string) (ds : list (string * tree)) :
  first_def id ds = None <-> id ∉ ds.*1.
Proof.
  induction ds as [|[name tr] ds IH]; cbn [first_def].
  - split; [intros _ Hin; inversion Hin | reflexivity].
  - rewrite fmap_cons, not_elem_of_cons. cbn [fst].
    destruct (decide (name = id)) as [->|Hne].
    + split; [discriminate | now intros [? _]].
    + rewrite IH. split; [now split; [congruence|] | now intros [_ ?]].
Qed.

End SettlingFacts.

(** X19.  After a rebuild that succeeds, what a base set holds under an
    identifier is read off the load sequence: the last definition with a
    body, or, when every definition of the identifier is empty, the first
    one; the identifier is absent exactly when no file and no [define]
    block of the sources declares it. *)
Theorem rebuild_settled `{Engine} (m : Manager) (f : TemplateFormat) (id : string) :
  (loadBaseTemplates m).2 = None ->
  baseTemplates (loadBaseTemplates m).1 f !! id
  = settled None id (all_trees (sources m) f)
  /\ (baseTemplates (loadBaseTemplates m).1 f !! id = None
      <-> id ∉ (all_trees (sources m) f).*1).
Proof.
  intros Hok. destruct (loadBaseTemplates_loads m) as (_ & _ & _ & _ & Hb).
  destruct (Hb f) as (ds & _ & Hall & ->). rewrite (Hall Hok).
  rewrite AddParseTrees_settled, lookup_empty. split; [reflexivity|].
  unfold settled.
  destruct (last_body id (all_trees (sources m) f)) as [t|] eqn:Hlast.
  - split; [discriminate|]. intros Hno. destruct Hno.
    now apply last_body_defined in Hlast.
  - apply first_def_None.
Qed.

Lemma rebuild_settled_witness :
  baseTemplates
    (loadBaseTemplates
       (set_sources blank_manager [component_x "A" " "; component_x "B" ""])).1
    FormatHTML !! "component:x" = Some " ".
Proof.
  destruct (rebuild_settled (H := literal_engine)
              (set_sources blank_manager [component_x "A" " "; component_x "B" ""])
              FormatHTML "component:x") as (Hset & _).
  - vm_compute. reflexivity.
  - etransitivity; [exact Hset|]. vm_compute. reflexivity.
Defined.

(** * [mailpen.go] *)

Section MailpenFacts.
Context `{Engine} {Provider Component : Type}.

Lemma addTemplateSources_addSources (l : list TemplateSource) :
  forall mp mp' : Mailpen Provider Component,
    addTemplateSources Provider Component mp l = (mp', None) ->
    addSources (templateMgr Provider Component mp) l
    = Ok (templateMgr Provider Component mp').
Proof.
  induction l as [|source l IH]; intros mp mp' Hadd;
    cbn [addTemplateSources addSources] in *.
  - now injection Hadd as <-.
  - unfold addTemplateSource in Hadd.
    destruct (AddSource (templateMgr Provider Component mp) source)
      as [tm [e|]]; cbn [fst snd] in Hadd; [discriminate|].
    now apply IH in Hadd.
Qed.

End MailpenFacts.

(** X20.  [New] needs a provider and a configuration.  It hands the
    sources of the configuration to [NewManager] and then adds each of them
    again, so the manager of the instance has every configured source
    twice, after the built-in one; its base sets are the ones a single
    registration gives. *)
Theorem New_registers_twice `{Engine} {Provider Component : Type}
  (builtin : Fs.FS) (prov : Provider) (cfg : Cfg.Config)
  (mp : Mailpen Provider Component) :
  New Provider Component builtin (Some prov) (Some cfg) [] = Ok mp ->
  sources (templateMgr Provider Component mp)
  = builtinSource builtin :: Cfg.Sources cfg ++ Cfg.Sources cfg
  /\ (forall f,
        baseTemplates (templateMgr Provider Component mp) f
        = Template.AddParseTrees ∅
            (all_trees (builtinSource builtin :: Cfg.Sources cfg) f))
  /\ (forall cfg' opts,
        New Provider Component builtin None cfg' opts = Err ProviderRequired)
  /\ (forall opts,
        New Provider Component builtin (Some prov) None opts = Err ConfigRequired).
Proof.
  intros Hnew. split; [|split; [|split; reflexivity]];
    unfold New, registerBuiltinComponents in Hnew;
    destruct (NewManager builtin _) as [tm|e] eqn:Htm; try discriminate;
    destruct (addTemplateSources _ _ _ _) as [mp1 [e|]] eqn:Hadd;
      try discriminate;
    cbn [applyOptions] in Hnew; injection Hnew as <-;
    apply addTemplateSources_addSources in Hadd; cbn [templateMgr] in Hadd;
    destruct (NewManager_result _ _ _ Htm) as (Hs & Hre);
    destruct (addSources_result _ _ _ Hadd) as (Hs' & Hre');
    cbn [userSources Sources] in Hs.
  - now rewrite Hs', Hs.
  - intros f. destruct (Hre' Hre) as (_ & Hbase).
    rewrite Hbase, Hs', Hs.
    change ((builtinSource builtin :: Cfg.Sources cfg) ++ Cfg.Sources cfg)
      with ([builtinSource builtin] ++ Cfg.Sources cfg ++ Cfg.Sources cfg).
    change (builtinSource builtin :: Cfg.Sources cfg)
      with ([builtinSource builtin] ++ Cfg.Sources cfg).
    rewrite !all_trees_app, !AddParseTrees_app.
    apply AddParseTrees_twice.
Qed.

Lemma New_registers_twice_witness :
  sources (templateMgr unit unit
             (get_ok (New (H := literal_engine) unit unit (alert_tree "built-in")
                        (Some tt) (Some one_source_config) [])
                {| config := one_source_config; provider := tt;
                   templateMgr := blank_manager; components := ∅;
                   htmlProcessor := None |}))
  = [builtinSource (alert_tree "built-in"); component_x "user" "custom";
     component_x "user" "custom"].
Proof.
  apply (New_registers_twice (H := literal_engine) (alert_tree "built-in") tt
           one_source_config).
  apply result_eta. vm_compute. reflexivity.
Defined.

(** X21.  A component is registered under a name once: registering under
    a free name succeeds, the component is then found under that name and
    the other names are as before; registering under a taken name fails
    and changes nothing. *)
Theorem RegisterComponent_once `{Engine} {Provider Component : Type}
  (mp : Mailpen Provider Component) (name : string) (c : Component) :
  (GetComponent Provider Component mp name = None ->
   let mp' := (RegisterComponent Provider Component mp name c).1 in
   (RegisterComponent Provider Component mp name c).2 = None
   /\ GetComponent Provider Component mp' name = Some c
   /\ (forall other, other <> name ->
         GetComponent Provider Component mp' other
         = GetComponent Provider Component mp other)
   /\ (forall c', RegisterComponent Provider Component mp' name c'
                  = (mp', Some (ComponentExists name))))
  /\ (forall old, GetComponent Provider Component mp name = Some old ->
        RegisterComponent Provider Component mp name c
        = (mp, Some (ComponentExists name))).
Proof.
  unfold GetComponent, RegisterComponent. split.
  - intros Hfree. rewrite Hfree. cbn. rewrite lookup_insert_eq.
    repeat split. intros other Hne. now apply lookup_insert_ne.
  - intros old Hold. now rewrite Hold.
Qed.

Lemma RegisterComponent_once_witness :
  GetComponent unit nat
    (RegisterComponent (H := literal_engine) unit nat
       {| config := one_source_config; provider := tt;
          templateMgr := blank_manager; components := ∅;
          htmlProcessor := None |} "button" 7).1 "button" = Some 7.
Proof.
  apply (RegisterComponent_once (H := literal_engine)
           {| config := one_source_config; provider := tt;
              templateMgr := blank_manager; components := ∅;
              htmlProcessor := None |} "button" 7).
  reflexivity.
Defined.

(** * [message.go] *)

Section BuilderFacts.
Variable Reader : Type.

Lemma chain_from (calls : list (Msg.call Reader)) :
  forall b : Msg.Builder Reader,
    Msg.err Reader b = None ->
    Msg.err Reader (foldl (Msg.apply_call Reader) b calls) = None
    /\ Msg.To Reader (Msg.msg Reader (foldl (Msg.apply_call Reader) b calls))
       = Msg.To Reader (Msg.msg Reader b) ++ Msg.recipients Reader calls.
Proof.
  induction calls as [|c calls IH]; intros b Hb.
  - cbn. now rewrite app_nil_r.
  - cbn [foldl]. unfold Msg.recipients. cbn [flat_map].
    fold (Msg.recipients Reader calls).
    assert (Hstep : Msg.err Reader (Msg.apply_call Reader b c) = None
              /\ Msg.To Reader (Msg.msg Reader (Msg.apply_call Reader b c))
                 = Msg.To Reader (Msg.msg Reader b)
                     ++ match c with Msg.CallTo _ l => l | _ => [] end).
    { destruct c; cbn; unfold Msg.setFrom, Msg.addTo, Msg.addCc, Msg.addBcc,
        Msg.setReplyTo, Msg.setSubject, Msg.WithData, Msg.setTemplate,
        Msg.setLayout, Msg.Attach, Msg.AttachWithContentType, Msg.update;
        rewrite Hb; cbn; now rewrite ?app_nil_r. }
    destruct Hstep as (He & Ht). destruct (IH _ He) as (He' & Ht').
    split; [exact He'|]. now rewrite Ht', Ht, <- app_assoc.
Qed.

End BuilderFacts.

(** X22.  Whatever methods are chained on a new builder, and in whatever
    order, no error is ever recorded; the message has the addresses of all
    [To] calls in the order given; and [Build] succeeds exactly when there
    is at least one such address, failing with "at least one recipient"
    otherwise (addresses given with [Cc] or [Bcc] do not count). *)
Theorem Build_needs_recipient {Reader : Type} (calls : list (Msg.call Reader)) :
  Msg.err Reader (Msg.chain Reader calls) = None
  /\ Msg.To Reader (Msg.msg Reader (Msg.chain Reader calls))
     = Msg.recipients Reader calls
  /\ (Msg.recipients Reader calls <> [] ->
      Msg.Build Reader (Msg.chain Reader calls)
      = Ok (Msg.msg Reader (Msg.chain Reader calls)))
  /\ (Msg.recipients Reader calls = [] ->
      Msg.Build Reader (Msg.chain Reader calls) = Err Msg.NoRecipient).
Proof.
  destruct (chain_from Reader calls (Msg.NewMessage Reader) eq_refl) as (He & Ht).
  cbn [Msg.NewMessage Msg.msg Msg.To app] in Ht. fold (Msg.chain Reader calls) in *.
  split; [exact He|]. split; [exact Ht|]. unfold Msg.Build. rewrite He, Ht.
  split; intros Hr.
  - destruct (Msg.recipients Reader calls); [now destruct Hr | reflexivity].
  - now rewrite Hr.
Qed.

Lemma Build_needs_recipient_witness :
  Msg.Build unit
    (Msg.chain unit [Msg.CallCc unit ["cc@example.com"];
                     Msg.CallSubject unit "Hello"])
  = Err Msg.NoRecipient.
Proof.
  apply (Build_needs_recipient
           [Msg.CallCc unit ["cc@example.com"]; Msg.CallSubject unit "Hello"]).
  reflexivity.
Defined.

(** * Document names that leave the documents directory *)

Lemma Join_two (a b : string) :
  a <> "" -> Path.Join [a; b] = Path.Clean (a +:+ "/" +:+ b).
Proof.
  intros Ha. unfold Path.Join. cbn [Path.join_buf].
  change (String.eqb "" "") with true. cbn [negb].
  apply String.eqb_neq in Ha. rewrite Ha. cbn [negb].
  replace (String.eqb (a +:+ "/" +:+ b) "") with false; [reflexivity|].
  symmetry. apply String.eqb_neq. intros Heq.
  apply (f_equal String.length) in Heq. rewrite !length_append in Heq.
  cbn in Heq. lia.
Qed.

Lemma lacks_append (sep : ascii) (a b : string) :
  lacks sep (a +:+ b) = lacks sep a && lacks sep b.
Proof.
  induction a as [|c a IH]; [reflexivity|].
  change (lacks sep (String c (a +:+ b)) = lacks sep (String c a) && lacks sep b).
  cbn [lacks]. now rewrite IH, andb_assoc.
Qed.

Lemma clean_segment (rooted : bool) (out rest : list string) (e : string) :
  e <> "" -> e <> "." -> e <> ".." ->
  Path.clean_elems rooted out (e :: rest) = Path.clean_elems rooted (e :: out) rest.
Proof.
  intros H0 H1 H2. cbn [Path.clean_elems].
  apply String.eqb_neq in H0, H1, H2. now rewrite H0, H1, H2.
Qed.

(** X23.  A document name is joined to the documents directory and the
    path is cleaned, so a name that starts with [../] names a file of
    another directory of the source: [../<dir>/<stem>] is looked for at
    [<dir>/<stem><ext>]. *)
Theorem emailFile_parent (dir stem : string) (f : TemplateFormat) :
  segment dir -> lacks "/" stem = true ->
  emailFile ("../" +:+ dir +:+ "/" +:+ stem) f
  = dir +:+ "/" +:+ stem +:+ Extension f.
Proof.
  intros (Hdir & Hd0 & Hd1 & Hd2) Hstem.
  set (leaf := stem +:+ Extension f).
  assert (Hleaf : lacks "/" leaf = true).
  { unfold leaf. rewrite lacks_append, Hstem. now destruct f. }
  assert (Hlen : 4 <= String.length leaf).
  { unfold leaf. rewrite length_append. destruct f; cbn; lia. }
  assert (Hl0 : leaf <> "") by (intros Heq; rewrite Heq in Hlen; cbn in Hlen; lia).
  assert (Hl1 : leaf <> ".") by (intros Heq; rewrite Heq in Hlen; cbn in Hlen; lia).
  assert (Hl2 : leaf <> "..") by (intros Heq; rewrite Heq in Hlen; cbn in Hlen; lia).
  unfold emailFile, EmailsDir. rewrite Join_two by discriminate.
  replace (("../" +:+ dir +:+ "/" +:+ stem) +:+ Extension f)
    with (".." +:+ String "/" (dir +:+ String "/" leaf)).
  2:{ unfold leaf. change (".." +:+ String "/" (dir +:+ String "/" (stem +:+ Extension f)))
        with ("../" +:+ (dir +:+ ("/" +:+ (stem +:+ Extension f)))).
      now rewrite !append_assoc. }
  change ("emails" +:+ "/" +:+ ".." +:+ String "/" (dir +:+ String "/" leaf))
    with ("emails" +:+ String "/" (".." +:+ String "/" (dir +:+ String "/" leaf))).
  unfold Path.Clean.
  set (P := "emails" +:+ String "/" (".." +:+ String "/" (dir +:+ String "/" leaf))).
  change (String.eqb P "") with false. cbv iota.
  assert (Hrooted : Strings.HasPrefix P "/" = false).
  { unfold Strings.HasPrefix. change (Strings.take (String.length "/") P) with "e".
    apply andb_false_r. }
  rewrite Hrooted. unfold P.
  rewrite !Split_first by (assumption || reflexivity).
  rewrite (Split_lacks leaf) by assumption.
  rewrite (clean_segment false [] [".."; dir; leaf] "emails") by discriminate.
  change (Path.clean_elems false ["emails"] [".."; dir; leaf])
    with (Path.clean_elems false [] [dir; leaf]).
  rewrite (clean_segment false [] [leaf] dir) by assumption.
  rewrite (clean_segment false [dir] [] leaf) by assumption.
  cbn [Path.clean_elems rev app Strings.Join].
  replace (String.eqb (dir +:+ "/" +:+ leaf) "") with false; [reflexivity|].
  symmetry. apply String.eqb_neq. intros Heq.
  apply (f_equal String.length) in Heq. rewrite !length_append in Heq.
  cbn in Heq. lia.
Qed.

Lemma emailFile_parent_witness :
  emailFile ("../" +:+ "layouts" +:+ "/" +:+ "a") FormatHTML = "layouts/a.html"
  /\ hasEmail (emailFile "../layouts/a" FormatHTML) layout_a = true.
Proof.
  split; [|vm_compute; reflexivity].
  apply (emailFile_parent "layouts" "a" FormatHTML).
  - repeat split; discriminate.
  - reflexivity.
Defined.
